(** * kez: the recent-cluster cache, the token synchroniser and [stack delete]

    A shallow embedding of [internal/api/api.go], [internal/buildkite],
    [internal/k8s] and of [DeleteCmd.Run] from [cmd/stack], with the
    properties of the lifecycle specification stated and settled against
    it.

    Conventions.
    - A Go [error] is an [option string]: [None] is [nil].
    - A pointer that the code tests against [nil] is an [option].
    - Everything outside the process (the configuration file, the Buildkite
      registry, helm, kubectl, the terminal prompts, the clock) answers
      through an explicit reply given to the function; what the program
      does to the outside is recorded as a list of [Event]s, in order.
    - A call of [DeleteCmd.Run] into [internal/k8s] is the code of that
      helper: the commands it executes are events of the run. *)

From Stdlib Require Import Ascii ZArith.
From stdpp Require Import base list strings pretty.

(** ** Go's [strings] package, as far as the program uses it *)
Module strings.

Definition is_space (c : ascii) : bool :=
  let n := nat_of_ascii c in
  (n =? 9)%nat || (n =? 10)%nat || (n =? 11)%nat || (n =? 12)%nat
  || (n =? 13)%nat || (n =? 32)%nat.

Fixpoint trim_left (s : string) : string :=
  match s with
  | String c s' => if is_space c then trim_left s' else s
  | EmptyString => EmptyString
  end.

Fixpoint trim_right (s : string) : string :=
  match s with
  | String c s' =>
      match trim_right s' with
      | EmptyString => if is_space c then EmptyString else String c EmptyString
      | t => String c t
      end
  | EmptyString => EmptyString
  end.

(** [strings.TrimSpace] on strings whose outer runes are ASCII: the six
    ASCII white-space bytes are removed from both ends. *)
Definition TrimSpace (s : string) : string := trim_right (trim_left s).

Definition lower (c : ascii) : ascii :=
  let n := nat_of_ascii c in
  if (65 <=? n)%nat && (n <=? 90)%nat then ascii_of_nat (n + 32) else c.

(** [strings.ToLower] on ASCII strings: [A]-[Z] become [a]-[z], every
    other byte is kept. *)
Fixpoint ToLower (s : string) : string :=
  match s with
  | String c s' => String (lower c) (ToLower s')
  | EmptyString => EmptyString
  end.

(** [strings.Contains s substr]: [substr] occurs in [s] at some offset. *)
Fixpoint Contains (s substr : string) : bool :=
  String.prefix substr s
  || match s with
     | String _ s' => Contains s' substr
     | EmptyString => false
     end.

(** [strings.Split s sep] for a one-byte separator, the only way the
    program calls it: the pieces between the separators, in order, empty
    pieces included; at least one piece. *)
Fixpoint Split (s : string) (sep : ascii) : list string :=
  match s with
  | EmptyString => [EmptyString]
  | String c s' =>
      if Ascii.eqb c sep then EmptyString :: Split s' sep
      else match Split s' sep with
           | p :: ps => String c p :: ps
           | [] => [String c EmptyString]
           end
  end.

End strings.

(** The two separators of the program: a line feed and a double quote. *)
Definition LF : ascii := ascii_of_nat 10.
Definition DQ : ascii := ascii_of_nat 34.
Definition quote : string := String DQ EmptyString.

Definition error := option string.

(** [fmt.Errorf("<prefix>: %w", err)] *)
Definition wrap (prefix : string) (err : string) : string := prefix +:+ ": " +:+ err.

(** ** [internal/config] *)
Module config.

Record BuildkiteConfig := { Token : string; bkOrgSlug : string }.
Record KubernetesConfig := { PreferredProvider : string }.

Record RecentCluster := {
  UUID : string;
  Name : string;
  OrgSlug : string;
  TokenID : string;
  TokenVal : string
}.

Record Config := {
  Buildkite : BuildkiteConfig;
  Kubernetes : KubernetesConfig;
  RecentClusters : list RecentCluster
}.

Definition with_RecentClusters (cfg : Config) (rcs : list RecentCluster) : Config :=
  {| Buildkite := Buildkite cfg; Kubernetes := Kubernetes cfg; RecentClusters := rcs |}.

Definition with_token (r : RecentCluster) (tid tval : string) : RecentCluster :=
  {| UUID := UUID r; Name := Name r; OrgSlug := OrgSlug r;
     TokenID := tid; TokenVal := tval |}.

#[global] Instance BuildkiteConfig_eq_dec : EqDecision BuildkiteConfig.
Proof. solve_decision. Defined.
#[global] Instance KubernetesConfig_eq_dec : EqDecision KubernetesConfig.
Proof. solve_decision. Defined.
#[global] Instance RecentCluster_eq_dec : EqDecision RecentCluster.
Proof. solve_decision. Defined.
#[global] Instance Config_eq_dec : EqDecision Config.
Proof. solve_decision. Defined.

End config.
Import config.

(** ** The SDK's values ([go-buildkite]): the fields the program reads *)

Record Cluster := { ID : string; clName : string }.
Record ClusterToken := { tkID : string; tkToken : string }.
Definition noToken : ClusterToken := {| tkID := ""; tkToken := "" |}.

Inductive SDKClient := sdk.

(** ** What the program does to the outside *)

Inductive Event :=
| Print (line : string)
| SaveConfig (cfg : Config)
| RegistryCreateToken (org clusterID description : string)
| RegistryDeleteToken (org clusterID tokenID : string)
| RegistryListClusters (org : string)
| Exec (argv : list string)
| AskSelect (message : string) (options : list string)
| AskConfirm (message : string).

#[global] Instance Event_eq_dec : EqDecision Event.
Proof. solve_decision. Defined.

(** ** [internal/api]: the client and the recent-cluster cache *)

Record Client := { config : option Config; client : option SDKClient }.

Definition with_config (c : Client) (cfg : Config) : Client :=
  {| config := Some cfg; client := client c |}.

Definition maxRecent : nat := 10.

(** The loops of the form
    [for i, r := range c.config.RecentClusters { if p(r) { ...; break } }]:
    the first index whose record satisfies [p], with that record. *)
Definition first_index (p : RecentCluster → bool) (l : list RecentCluster)
  : option (nat * RecentCluster) :=
  list_find (λ r, p r = true) l.

Definition has_uuid (u : string) (r : RecentCluster) : bool := String.eqb (UUID r) u.

(** [Client.AddRecentCluster]; [save] is the reply of [config.Save]. *)
Definition AddRecentCluster (c : Client) (cluster : Cluster) (save : error)
  : list Event * Client * error :=
  match config c with
  | None => ([], c, Some "config not loaded, cannot add recent cluster")
  | Some cfg =>
      let newRecent :=
        {| UUID := ID cluster; Name := clName cluster;
           OrgSlug := bkOrgSlug (Buildkite cfg); TokenID := ""; TokenVal := "" |} in
      let '(out, rcs) :=
        match first_index (has_uuid (UUID newRecent)) (RecentClusters cfg) with
        | Some (index, old) =>
            let newRecent :=
              if negb (String.eqb (TokenID old) "")
              then with_token newRecent (TokenID old) (TokenVal old)
              else newRecent in
            ([], <[index := newRecent]> (RecentClusters cfg))
        | None =>
            let l := RecentClusters cfg ++ [newRecent] in
            let l := if (maxRecent <? length l)%nat
                     then drop (length l - maxRecent) l else l in
            ([Print ("Added cluster '" +:+ Name newRecent +:+ "' ("
                       +:+ UUID newRecent +:+ ") to recent list.")], l)
        end in
      let cfg' := with_RecentClusters cfg rcs in
      (out ++ [SaveConfig cfg'], with_config c cfg',
       match save with
       | Some e => Some (wrap "failed to save config after adding recent cluster" e)
       | None => None
       end)
  end.

(** [Client.GetRecentClusters] *)
Definition GetRecentClusters (c : Client) : list RecentCluster :=
  match config c with
  | None => []
  | Some cfg => RecentClusters cfg
  end.

(** [internal/buildkite]: thin wrappers over the SDK. [reply] is what the
    SDK call returned. *)
Module bk.

Definition create (reply : ClusterToken * error) : ClusterToken * error :=
  match reply.2 with
  | Some e => (noToken, Some e)
  | None => (reply.1, None)
  end.

Definition CreateToken (org clusterID version : string)
    (reply : ClusterToken * error) : list Event * (ClusterToken * error) :=
  ([RegistryCreateToken org clusterID ("kez-" +:+ version)], create reply).

Definition CreateTokenWithDescription (org clusterID description : string)
    (reply : ClusterToken * error) : list Event * (ClusterToken * error) :=
  ([RegistryCreateToken org clusterID description], create reply).

Definition DeleteToken (org clusterID tokenID : string) (reply : error)
  : list Event * error :=
  ([RegistryDeleteToken org clusterID tokenID], reply).

Definition ListClusters (org : string) (reply : list Cluster * error)
  : list Event * (list Cluster * error) :=
  ([RegistryListClusters org],
   match reply.2 with
   | Some e => ([], Some e)
   | None => (reply.1, None)
   end).

End bk.

(** The part shared by [CreateToken] and [CreateTokenWithDescription] after
    the registry call: the first record of [clusterID], when there is one,
    receives the token, and the configuration is saved. *)
Definition record_token (c : Client) (cfg : Config) (clusterID : string)
    (token : ClusterToken) (save : error) : list Event * Client :=
  match first_index (has_uuid clusterID) (RecentClusters cfg) with
  | Some (i, r) =>
      let cfg' := with_RecentClusters cfg
                    (<[i := with_token r (tkID token) (tkToken token)]>
                       (RecentClusters cfg)) in
      (SaveConfig cfg' ::
       match save with
       | Some e => [Print ("Warning: Failed to save token ID to config: " +:+ e)]
       | None => []
       end,
       with_config c cfg')
  | None => ([], c)
  end.

Definition issue (c : Client) (clusterID : string)
    (call : string → list Event * (ClusterToken * error)) (save : error)
  : list Event * Client * (ClusterToken * error) :=
  match client c, config c with
  | Some _, Some cfg =>
      let '(ev, (token, err)) := call (bkOrgSlug (Buildkite cfg)) in
      match err with
      | Some e =>
          (ev, c, (noToken,
                   Some (wrap ("failed to create token for cluster '"
                                 +:+ clusterID +:+ "'") e)))
      | None =>
          let '(ev', c') := record_token c cfg clusterID token save in
          (ev ++ ev', c', (token, None))
      end
  | _, _ => ([], c, (noToken, Some "API client not properly initialized"))
  end.

(** [Client.CreateToken] *)
Definition CreateToken (c : Client) (clusterID version : string)
    (reply : ClusterToken * error) (save : error)
  : list Event * Client * (ClusterToken * error) :=
  issue c clusterID (λ org, bk.CreateToken org clusterID version reply) save.

(** [Client.CreateTokenWithDescription] *)
Definition CreateTokenWithDescription (c : Client) (clusterID description : string)
    (reply : ClusterToken * error) (save : error)
  : list Event * Client * (ClusterToken * error) :=
  issue c clusterID
        (λ org, bk.CreateTokenWithDescription org clusterID description reply) save.

(** [Client.ListClusters] *)
Definition ListClusters (c : Client) (reply : list Cluster * error)
  : list Event * (list Cluster * error) :=
  match client c, config c with
  | Some _, Some cfg =>
      let org := bkOrgSlug (Buildkite cfg) in
      let '(ev, (clusters, err)) := bk.ListClusters org reply in
      match err with
      | Some e =>
          (ev, ([], Some (wrap ("failed to list buildkite clusters for org '"
                                  +:+ org +:+ "'") e)))
      | None => (ev, (clusters, None))
      end
  | _, _ => ([], ([], Some "API client not properly initialized"))
  end.

(** [Client.DeleteToken]; [reply] is the error of the registry's delete. *)
Definition DeleteToken (c : Client) (clusterID tokenID : string) (reply : error)
  : list Event * error :=
  match client c, config c with
  | Some _, Some cfg =>
      let '(ev, err) := bk.DeleteToken (bkOrgSlug (Buildkite cfg)) clusterID tokenID reply in
      match err with
      | Some e =>
          (ev, Some (wrap ("failed to delete token '" +:+ tokenID
                             +:+ "' for cluster '" +:+ clusterID +:+ "'") e))
      | None => (ev, None)
      end
  | _, _ => ([], Some "API client not properly initialized")
  end.

Definition name_matches (normalizedName : string) (r : RecentCluster) : bool :=
  strings.Contains (strings.ToLower (Name r)) normalizedName.

(** [Client.FindClusterByName] *)
Definition FindClusterByName (c : Client) (name : string)
  : list RecentCluster * error :=
  match config c with
  | None => ([], Some "config not loaded, cannot find cluster")
  | Some cfg =>
      (List.filter (name_matches (strings.ToLower name)) (RecentClusters cfg), None)
  end.

Definition holds_token_of (clusterID tokenID : string) (r : RecentCluster) : bool :=
  String.eqb (UUID r) clusterID && String.eqb (TokenID r) tokenID.

(** [Client.RemoveTokenFromCluster] *)
Definition RemoveTokenFromCluster (c : Client) (clusterID tokenID : string)
    (save : error) : list Event * Client * error :=
  match config c with
  | None => ([], c, Some "config not loaded, cannot update cluster token")
  | Some cfg =>
      match first_index (holds_token_of clusterID tokenID) (RecentClusters cfg) with
      | Some (i, r) =>
          let cfg' := with_RecentClusters cfg
                        (<[i := with_token r "" ""]> (RecentClusters cfg)) in
          ([SaveConfig cfg'], with_config c cfg',
           match save with
           | Some e => Some (wrap "failed to save config after removing token" e)
           | None => None
           end)
      | None =>
          ([], c, Some ("token " +:+ tokenID +:+ " not found for cluster " +:+ clusterID))
      end
  end.

(** ** [internal/k8s]: the helpers over kubectl

    [look] is the reply of [exec.LookPath("kubectl")]; the other replies
    are the combined output and the error of the command run. *)
Module k8s.

Definition ProviderUnknown : string := "unknown".
Definition ProviderOrbstack : string := "orbstack".
Definition ProviderMinikube : string := "minikube".
Definition ProviderKind : string := "kind".
Definition ProviderDockerDsk : string := "docker-desktop".

(** [DetectProvider] *)
Definition DetectProvider (look context info : string * error)
  : list Event * (string * error) :=
  match look.2 with
  | Some e => ([], (ProviderUnknown, Some (wrap "kubectl not found in PATH" e)))
  | None =>
      let kubectlPath := look.1 in
      let ev := [Exec [kubectlPath; "config"; "current-context"]] in
      match context.2 with
      | Some e => (ev, (ProviderUnknown, Some (wrap "failed to get current context" e)))
      | None =>
          let ctx := strings.TrimSpace context.1 in
          if strings.Contains ctx "orbstack" then (ev, (ProviderOrbstack, None))
          else if strings.Contains ctx "minikube" then (ev, (ProviderMinikube, None))
          else if strings.Contains ctx "kind-" then (ev, (ProviderKind, None))
          else if strings.Contains ctx "docker-desktop" then (ev, (ProviderDockerDsk, None))
          else
            let ev := ev ++ [Exec [kubectlPath; "cluster-info"]] in
            match info.2 with
            | Some _ => (ev, (ProviderUnknown, None))
            | None =>
                let text := strings.ToLower info.1 in
                if strings.Contains text "orbstack" then (ev, (ProviderOrbstack, None))
                else if strings.Contains text "minikube" then (ev, (ProviderMinikube, None))
                else if strings.Contains text "kind" then (ev, (ProviderKind, None))
                else if strings.Contains text "docker-desktop"
                        || strings.Contains text "docker desktop"
                then (ev, (ProviderDockerDsk, None))
                else (ev, (ProviderUnknown, None))
            end
      end
  end.

(** [VerifyClusterConnection]; [version] is the error of
    [kubectl version --client]. *)
Definition VerifyClusterConnection (look : string * error) (version : error)
    (info : string * error) : list Event * error :=
  match look.2 with
  | Some e => ([], Some (wrap "kubectl not found in PATH" e))
  | None =>
      let kubectlPath := look.1 in
      let ev := [Exec [kubectlPath; "version"; "--client"]] in
      match version with
      | Some e => (ev, Some (wrap "failed to get kubectl version" e))
      | None =>
          let ev := ev ++ [Exec [kubectlPath; "cluster-info"]] in
          match info.2 with
          | Some e => (ev, Some (wrap "failed to connect to cluster" e))
          | None =>
              if negb (strings.Contains info.1 "Kubernetes control plane")
                 && negb (strings.Contains info.1 "Kubernetes master")
              then (ev, Some "connected to cluster but did not get expected Kubernetes control plane info")
              else (ev, None)
          end
      end
  end.

Definition agent_pods (kubectlPath : string) : list string :=
  [kubectlPath; "get"; "pods"; "-n"; "buildkite";
   "--selector=app.kubernetes.io/component=agent"; "--no-headers"].

(** [IsAgentStackInstalled] *)
Definition IsAgentStackInstalled (look ns pods : string * error)
  : list Event * (bool * error) :=
  match look.2 with
  | Some e => ([], (false, Some (wrap "kubectl not found in PATH" e)))
  | None =>
      let kubectlPath := look.1 in
      let ev := [Exec [kubectlPath; "get"; "namespace"; "buildkite"; "--no-headers";
                       "--ignore-not-found"]] in
      match ns.2 with
      | Some e => (ev, (false, Some (wrap "failed to check for buildkite namespace" e)))
      | None =>
          if (String.length (strings.TrimSpace ns.1) =? 0)%nat then (ev, (false, None))
          else
            let ev := ev ++ [Exec (agent_pods kubectlPath)] in
            match pods.2 with
            | Some _ => (ev, (true, None))
            | None => (ev, ((0 <? String.length (strings.TrimSpace pods.1))%nat, None))
            end
      end
  end.

(** One turn of the counting loop of [GetAgentPodsStatus]. *)
Definition count_pod (counts : nat * nat) (line : string) : nat * nat :=
  let '(runningCount, totalCount) := counts in
  if (String.length (strings.TrimSpace line) =? 0)%nat then counts
  else (if strings.Contains line "Running" then S runningCount else runningCount,
        S totalCount).

(** [GetAgentPodsStatus]: the running and the total count. *)
Definition GetAgentPodsStatus (look pods : string * error)
  : list Event * (nat * nat * error) :=
  match look.2 with
  | Some e => ([], (0, 0, Some (wrap "kubectl not found in PATH" e)))
  | None =>
      let ev := [Exec (agent_pods look.1)] in
      match pods.2 with
      | Some e => (ev, (0, 0, Some (wrap "failed to get agent pods" e)))
      | None => (ev, (foldl count_pod (0, 0) (strings.Split pods.1 LF), None))
      end
  end.

End k8s.

(** ** [cmd/stack]: the delete command *)
Module stack.

(** *** The run as a computation: events so far, and how it goes on *)

Inductive Res (A : Type) :=
| Cont (a : A)            (* execution goes on with [a] *)
| Return (err : error)    (* the function executed [return err] *)
| Panic                   (* a run-time panic (index out of range) *)
| Pending.                (* still waiting when the observed polls ended *)
Arguments Cont {A} a.
Arguments Return {A} err.
Arguments Panic {A}.
Arguments Pending {A}.

Record M (A : Type) := mkM { events : list Event; result : Res A }.
Arguments mkM {A} events result.
Arguments events {A} m.
Arguments result {A} m.

#[global] Instance M_ret : MRet M := λ A a, mkM [] (Cont a).
#[global] Instance M_bind : MBind M := λ A B f m,
  match result m with
  | Cont a => mkM (events m ++ events (f a)) (result (f a))
  | Return e => mkM (events m) (Return e)
  | Panic => mkM (events m) Panic
  | Pending => mkM (events m) Pending
  end.

Definition emit (e : Event) : M unit := mkM [e] (Cont ()).
Definition print (line : string) : M unit := emit (Print line).
Definition exec (argv : list string) : M unit := emit (Exec argv).
Definition exit {A} (err : error) : M A := mkM [] (Return err).
Definition panic {A} : M A := mkM [] Panic.
Definition pending {A} : M A := mkM [] Pending.
Definition lift {A} (r : list Event * A) : M A := mkM r.1 (Cont r.2).

(** What the caller of [Run] receives: [Some err] when the function
    returned [err]; reaching the end of the body is [return nil]. *)
Definition returned {A} (m : M A) : option error :=
  match result m with
  | Cont _ => Some None
  | Return e => Some e
  | Panic | Pending => None
  end.

Record DeleteCmd := {
  Force : bool;
  Timeout : Z;
  Name : string;
  All : bool;
  NoWait : bool
}.

Definition with_target (c : DeleteCmd) (name : string) (all : bool) : DeleteCmd :=
  {| Force := Force c; Timeout := Timeout c; Name := name; All := all;
     NoWait := NoWait c |}.

(** *** The replies of the outside, one per call site of [Run]

    The helpers of [internal/k8s] that [Run] calls are part of the program:
    their replies are those of [exec.LookPath] and of the kubectl commands
    they run, and these commands are events of the run. *)
Record Env := {
  lookKubectlInstalled : string * error;     (* LookPath("kubectl"), IsAgentStackInstalled *)
  getNamespace : string * error;             (* kubectl get namespace buildkite *)
  getAgentPods : string * error;             (* kubectl get pods, IsAgentStackInstalled *)
  lookHelm : string * error;                 (* exec.LookPath("helm") *)
  helmList : string * error;                 (* helm list -o json, discovery *)
  selectStack : nat * error;                 (* survey.Select *)
  NewClient : option Client;                 (* api.NewClient; None on error *)
  lookKubectlVerify : string * error;        (* LookPath("kubectl"), VerifyClusterConnection *)
  kubectlVersion : error;                    (* kubectl version --client *)
  getClusterInfo : string * error;           (* kubectl cluster-info, VerifyClusterConnection *)
  lookKubectl : string * error;              (* exec.LookPath("kubectl") *)
  currentContext : string * error;           (* kubectl config current-context *)
  lookKubectlDetect : string * error;        (* LookPath("kubectl"), DetectProvider *)
  detectContext : string * error;            (* kubectl config current-context, DetectProvider *)
  detectClusterInfo : string * error;        (* kubectl cluster-info, DetectProvider *)
  lookKubectlStatus : string * error;        (* LookPath("kubectl"), GetAgentPodsStatus *)
  statusPods : string * error;               (* kubectl get pods, GetAgentPodsStatus *)
  listClusters : list Cluster * error;       (* registry: list clusters *)
  confirmDelete : bool * error;              (* survey.Confirm, deletion *)
  helmListAll : string * error;              (* helm list --output json, uninstall *)
  helmUninstall : string → error;            (* helm uninstall <name> *)
  getSecrets : string * error;               (* kubectl get secrets *)
  deleteSecret : string → error;             (* kubectl delete secret <name> *)
  getResources : string → string;            (* kubectl get <kind>, by kind *)
  deleteResources : string → error;          (* kubectl delete <kind>, by kind *)
  elapsed : nat → Z;                         (* time.Since(startTime) at poll k, ns *)
  getPods : nat → string * error;            (* kubectl get pods at poll k *)
  helmListAfter : string * error;            (* helm list --output json, namespace *)
  confirmNamespace : bool * error;           (* survey.Confirm, namespace *)
  deleteNamespace : error;                   (* kubectl delete namespace *)
  registryDelete : string → string → error;  (* registry: delete token *)
  saveConfig : string → error                (* config.Save after clearing, by uuid *)
}.

(** The call [k8s.IsAgentStackInstalled()] of line 32: the commands it
    runs, and what it returns. *)
Definition installed_check (env : Env) : list Event * (bool * error) :=
  k8s.IsAgentStackInstalled (lookKubectlInstalled env) (getNamespace env)
    (getAgentPods env).

(** What that call returns: [stackInstalled] and [err]. *)
Definition IsAgentStackInstalled (env : Env) : bool * error := (installed_check env).2.

(** The calls [k8s.VerifyClusterConnection()], [k8s.DetectProvider()] and
    [k8s.GetAgentPodsStatus()] of lines 150, 169 and 182. *)
Definition connection_check (env : Env) : list Event * error :=
  k8s.VerifyClusterConnection (lookKubectlVerify env) (kubectlVersion env)
    (getClusterInfo env).

Definition provider_check (env : Env) : list Event * (string * error) :=
  k8s.DetectProvider (lookKubectlDetect env) (detectContext env)
    (detectClusterInfo env).

Definition pods_check (env : Env) : list Event * (nat * nat * error) :=
  k8s.GetAgentPodsStatus (lookKubectlStatus env) (statusPods env).

Definition second : Z := 1000000000.

(** Two's-complement wrap-around of a product of [int64]s. *)
Definition wrap64 (z : Z) : Z := ((z + 2 ^ 63) `mod` 2 ^ 64 - 2 ^ 63)%Z.

Definition is_empty (s : string) : bool := String.eqb s "".

(** The release names the code reads off the JSON listing: on every line
    that contains ["name":], the fourth piece between double quotes. *)
Definition release_names (listOutput : string) : list string :=
  flat_map
    (λ line,
       if strings.Contains line (quote +:+ "name" +:+ quote +:+ ":")
       then let parts := strings.Split line DQ in
            match parts !! 3 with
            | Some name => [name]
            | None => []
            end
       else [])
    (strings.Split listOutput LF).

Definition helm_list_table (helmPath : string) : list string :=
  [helmPath; "list"; "-n"; "buildkite"].

(** Lines 79-135: the target is settled against the discovered stacks. *)
Definition resolve (env : Env) (c : DeleteCmd) (helmPath : string)
    (stackList : list string) : M DeleteCmd :=
  if is_empty (Name c) && negb (All c) then
    match stackList with
    | [only] =>
        print ("ℹ️ Found one stack: " +:+ only);;
        mret (with_target c only (All c))
    | _ =>
        if negb (Force c) then
          print ("Found " +:+ pretty (length stackList) +:+ " Buildkite agent stacks:");;
          exec (helm_list_table helmPath);;
          emit (AskSelect "Select stack to delete:" (stackList ++ ["Delete all stacks"]));;
          match (selectStack env).2 with
          | Some e => exit (Some (wrap "selection cancelled" e))
          | None =>
              let selectedOption := (selectStack env).1 in
              if (selectedOption =? length stackList)%nat
              then mret (with_target c "" true)
              else match stackList !! selectedOption with
                   | Some name => mret (with_target c name false)
                   | None => panic
                   end
          end
        else
          exit (Some "multiple stacks found but no specific stack name provided. Use --name to specify or --all to delete all")
    end
  else if negb (is_empty (Name c)) && negb (All c) then
    if existsb (String.eqb (Name c)) stackList then mret c
    else
      print ("❌ No stack named '" +:+ Name c +:+ "' found. Available stacks:");;
      exec (helm_list_table helmPath);;
      exit (Some "specified stack not found")
  else mret c.

(** Lines 42-140: is helm there, and which stacks does it list. The
    result is the command with its target settled, and [helmPath]. *)
Definition list_stacks (env : Env) (c : DeleteCmd) : M (DeleteCmd * string) :=
  let helmPath := (lookHelm env).1 in
  match (lookHelm env).2 with
  | Some _ =>
      print "⚠️ Helm not found in PATH. Will only remove Kubernetes resources directly.";;
      if is_empty (Name c) && negb (All c)
      then exit (Some "helm not available and no stack name specified. Use --name to specify the stack name")
      else mret (c, helmPath)
  | None =>
      print "🔍 Checking for installed Buildkite agent stacks...";;
      exec [helmPath; "list"; "-n"; "buildkite"; "-o"; "json"];;
      let listOutput := (helmList env).1 in
      match (helmList env).2 with
      | Some e =>
          print ("⚠️ Failed to list Helm releases: " +:+ e);;
          if is_empty (Name c) && negb (All c)
          then exit (Some "failed to list helm releases and no stack name specified")
          else mret (c, helmPath)
      | None =>
          if (0 <? String.length listOutput)%nat
             && negb (String.eqb (strings.TrimSpace listOutput) "[]")
          then
            let stackList := release_names listOutput in
            if (length stackList =? 0)%nat then
              print "❌ No Buildkite agent stacks found in the buildkite namespace.";;
              exit None
            else
              c' ← resolve env c helmPath stackList;
              mret (c', helmPath)
          else
            print "❌ No Buildkite agent stacks found in the buildkite namespace.";;
            exit None
      end
  end.

(** Lines 29-140: is anything installed, is helm there, which stacks. *)
Definition discover (env : Env) (c : DeleteCmd) : M (DeleteCmd * string) :=
  print "Deleting Buildkite agent stack from Kubernetes...";;
  '(stackInstalled, err) ← lift (installed_check env);
  match err with
  | Some e => exit (Some (wrap "failed to check if agent stack is installed" e))
  | None =>
      if negb stackInstalled then
        print "❌ No Buildkite agent stack is installed. Nothing to delete.";;
        exit None
      else list_stacks env c
  end.

(** Lines 142-195: the API client, the cluster connection, kubectl. A
    failed [api.NewClient] leaves [client] nil and the run goes on. *)
Definition connect (env : Env) : M (option Client * string) :=
  let client := NewClient env in
  (if client is None
   then print "⚠️ Failed to initialize API client. Limited operation details will be available."
   else mret ());;
  print "🔍 Checking Kubernetes connection...";;
  err ← lift (connection_check env);
  match err with
  | Some e => exit (Some (wrap "kubernetes connection check failed" e))
  | None =>
  let kubectlPath := (lookKubectl env).1 in
  match (lookKubectl env).2 with
  | Some e => exit (Some ("kubectl not found in PATH. Is it installed? Error: " +:+ e))
  | None =>
  exec [kubectlPath; "config"; "current-context"];;
  match (currentContext env).2 with
  | Some e => exit (Some (wrap "failed to get Kubernetes context" e))
  | None =>
  let context := strings.TrimSpace (currentContext env).1 in
  '(provider, err) ← lift (provider_check env);
  provider ← match err with
             | Some e =>
                 print ("⚠️ Unable to detect Kubernetes provider: " +:+ e);;
                 mret k8s.ProviderUnknown
             | None => mret provider
             end;
  (if String.eqb provider k8s.ProviderUnknown
   then print ("✅ Connected to Kubernetes context: " +:+ context)
   else print ("✅ Connected to Kubernetes context: " +:+ context
                 +:+ " (" +:+ provider +:+ ")"));;
  '(runningCount, totalPods, err) ← lift (pods_check env);
  match err with
  | Some e =>
      if negb (strings.Contains e "buildkite not found")
      then print ("⚠️ Unable to get agent pod status: " +:+ e)
      else mret ()
  | None =>
      if (totalPods =? 0)%nat then print "ℹ️ No Buildkite agent pods found"
      else if (runningCount =? 0)%nat then
        print ("ℹ️ Found " +:+ pretty totalPods +:+ " agent pods but none are running")
      else
        print ("ℹ️ Found " +:+ pretty runningCount +:+ "/" +:+ pretty totalPods
                 +:+ " Buildkite agent pods running")
  end;;
  mret (client, kubectlPath)
  end end end.

Definition has_token (r : RecentCluster) : bool := negb (is_empty (TokenID r)).

(** Lines 205-235: the cache records whose tokens the run will revoke. *)
Definition clustersToDelete (client : Client) (c : DeleteCmd) : list RecentCluster :=
  let recentClusters := GetRecentClusters client in
  if (0 <? length recentClusters)%nat then
    if All c then List.filter has_token recentClusters
    else
      let '(matchedClusters, err) := FindClusterByName client (Name c) in
      let selected :=
        if bool_decide (err = None) && (0 <? length matchedClusters)%nat
        then List.filter has_token matchedClusters else [] in
      if (length selected =? 0)%nat && (0 <? length recentClusters)%nat then
        match first_index has_token recentClusters with
        | Some (_, cluster) => selected ++ [cluster]
        | None => selected
        end
      else selected
  else [].

Definition describe (name id : string) : string := name +:+ " (" +:+ id +:+ ")".

(** Lines 237-258: the cluster named in the confirmation prompt. *)
Definition clusterInfo (env : Env) (client : Client) (c : DeleteCmd)
    (selected : list RecentCluster) : M string :=
  let recentClusters := GetRecentClusters client in
  match selected, All c with
  | firstCluster :: _, false =>
      mret (describe (config.Name firstCluster) (UUID firstCluster))
  | _, _ =>
      match last recentClusters with
      | Some mostRecentCluster =>
          '(clusters, err) ← lift (ListClusters client (listClusters env));
          let found :=
            if err is None
            then match List.find (λ cl, String.eqb (ID cl) (UUID mostRecentCluster)) clusters with
                 | Some cl => describe (clName cl) (ID cl)
                 | None => ""
                 end
            else "" in
          if is_empty found
          then mret (describe (config.Name mostRecentCluster) (UUID mostRecentCluster))
          else mret found
      | None => mret ""
      end
  end.

(** Lines 197-260. *)
Definition plan (env : Env) (client : option Client) (c : DeleteCmd)
  : M (list RecentCluster * string) :=
  match client with
  | Some cl =>
      if (0 <? length (GetRecentClusters cl))%nat then
        let selected := clustersToDelete cl c in
        info ← clusterInfo env cl c selected;
        mret (selected, info)
      else mret ([], "")
  | None => mret ([], "")
  end.

(** Lines 262-290: the confirmation, unless forced. *)
Definition confirm (env : Env) (c : DeleteCmd) (info : string) : M unit :=
  if negb (Force c) then
    let message :=
      (if All c then "Are you sure you want to delete ALL Buildkite agent stacks?"
       else "Are you sure you want to delete the Buildkite agent stack '"
              +:+ Name c +:+ "'?")
      +:+ (if negb (is_empty info) then " (Cluster: " +:+ info +:+ ")" else "") in
    emit (AskConfirm message);;
    match (confirmDelete env).2 with
    | Some e => exit (Some (wrap "prompt cancelled" e))
    | None =>
        if negb (confirmDelete env).1
        then print "Operation cancelled.";; exit None
        else mret ()
    end
  else mret ().

Fixpoint for_each {A} (l : list A) (body : A → M unit) : M unit :=
  match l with
  | [] => mret ()
  | x :: l' => body x;; for_each l' body
  end.

Definition helm_uninstall (env : Env) (helmPath name : string) (single : bool)
  : M unit :=
  print ("🗑️ Uninstalling Helm release '" +:+ name +:+ "'...");;
  exec [helmPath; "uninstall"; name; "-n"; "buildkite"];;
  match helmUninstall env name with
  | Some e =>
      print ("⚠️ Failed to uninstall Helm release '" +:+ name +:+ "': " +:+ e);;
      if single then print "Continuing with direct resource deletion..." else mret ()
  | None => print ("✅ Helm release '" +:+ name +:+ "' uninstalled successfully")
  end.

(** Lines 292-349: the releases are uninstalled, when helm is there. *)
Definition uninstall (env : Env) (c : DeleteCmd) (helmPath : string) : M unit :=
  if negb (is_empty helmPath) then
    if All c then
      print "🗑️ Uninstalling all Buildkite agent stack Helm releases...";;
      exec [helmPath; "list"; "-n"; "buildkite"; "--output"; "json"];;
      match (helmListAll env).2 with
      | Some e =>
          print ("⚠️ Failed to list Helm releases: " +:+ e);;
          print "Continuing with direct resource deletion..."
      | None =>
          let releaseNames := release_names (helmListAll env).1 in
          if (length releaseNames =? 0)%nat
          then print "⚠️ No Helm releases found to uninstall"
          else for_each releaseNames (λ name, helm_uninstall env helmPath name false)
      end
    else helm_uninstall env helmPath (Name c) true
  else mret ().

(** Lines 351-378: the SSH key secrets. *)
Definition delete_ssh_secrets (env : Env) (kubectlPath : string) : M unit :=
  print "🔍 Checking for SSH key secrets...";;
  exec [kubectlPath; "get"; "secrets"; "-n"; "buildkite";
        "--field-selector=type=Opaque"; "-o";
        "custom-columns=NAME:.metadata.name"; "--no-headers"];;
  match (getSecrets env).2 with
  | Some _ => mret ()
  | None =>
      let secrets := strings.Split (strings.TrimSpace (getSecrets env).1) LF in
      let sshSecrets :=
        List.filter (λ secret, strings.Contains secret "git-ssh"
                               || strings.Contains secret "ssh-key") secrets in
      if (0 <? length sshSecrets)%nat then
        print ("🗑️ Deleting " +:+ pretty (length sshSecrets) +:+ " SSH key secrets...");;
        for_each sshSecrets
          (λ secret,
             exec [kubectlPath; "delete"; "secret"; secret; "-n"; "buildkite"];;
             match deleteSecret env secret with
             | Some e => print ("⚠️ Failed to delete secret " +:+ secret +:+ ": " +:+ e)
             | None => print ("✓ Deleted secret: " +:+ secret)
             end)
      else print "ℹ️ No SSH key secrets found"
  end.

Definition resourceTypes : list string :=
  ["deployments"; "statefulsets"; "daemonsets"; "services"; "configmaps";
   "secrets"; "serviceaccounts"; "roles"; "rolebindings"].

(** The label selector of the scope: every agent stack, or one release. *)
Definition selector (c : DeleteCmd) : string :=
  if All c then "app.kubernetes.io/part-of=agent-stack-k8s"
  else "app.kubernetes.io/instance=" +:+ Name c.

(** Lines 380-422: what is left of the scope, kind by kind. *)
Definition delete_resources (env : Env) (c : DeleteCmd) (kubectlPath : string)
  : M unit :=
  print "🗑️ Deleting any remaining Buildkite resources...";;
  for_each resourceTypes
    (λ resType,
       exec [kubectlPath; "get"; resType; "-n"; "buildkite"; "-l"; selector c;
             "--no-headers"];;
       if (0 <? String.length (strings.TrimSpace (getResources env resType)))%nat then
         exec [kubectlPath; "delete"; resType; "-n"; "buildkite"; "-l"; selector c];;
         match deleteResources env resType with
         | Some e => print ("⚠️ Failed to delete " +:+ resType +:+ ": " +:+ e)
         | None => mret ()
         end
       else mret ()).

Definition timedOut : string := "⚠️ Timed out waiting for pods to terminate".
Definition allTerminated : string := "✅ All pods terminated successfully".

(** The pod lines that count: trimmed, not empty, not kubectl's
    "No resources found" message. *)
Definition podLines (remainingPods : string) : list string :=
  List.filter
    (λ line, negb (is_empty line) && negb (strings.Contains line "No resources found"))
    (map strings.TrimSpace (strings.Split remainingPods LF)).

(** Lines 435-495: one turn of the loop per poll [k]. The loop ends on a
    timeout or when no pod is left; [fuel] bounds the polls observed. *)
Fixpoint wait_loop (env : Env) (c : DeleteCmd) (kubectlPath : string)
    (timeoutDuration : Z) (fuel k : nat) : M unit :=
  match fuel with
  | O => pending
  | S fuel' =>
      if (timeoutDuration <? elapsed env k)%Z then print timedOut
      else
        exec [kubectlPath; "get"; "pods"; "-n"; "buildkite"; "-l"; selector c;
              "--field-selector=status.phase!=Succeeded,status.phase!=Failed";
              "--no-headers"];;
        match (getPods env k).2 with
        | Some _ => print allTerminated
        | None =>
            let remainingPods := strings.TrimSpace (getPods env k).1 in
            if (String.length remainingPods =? 0)%nat then print allTerminated
            else
              let podCount := length (podLines remainingPods) in
              if (podCount =? 0)%nat then print allTerminated
              else
                print ("⏳ Still waiting for " +:+ pretty podCount
                         +:+ " pod(s) to terminate...");;
                wait_loop env c kubectlPath timeoutDuration fuel' (S k)
        end
  end.

(** Lines 424-498: the wait for the pods, unless [--no-wait]. *)
Definition await_termination (env : Env) (c : DeleteCmd) (kubectlPath : string)
    (fuel : nat) : M unit :=
  if negb (NoWait c) then
    print ("⏳ Waiting for pods to terminate (timeout: " +:+ pretty (Timeout c) +:+ "s)...");;
    wait_loop env c kubectlPath (wrap64 (Timeout c * second)) fuel 0
  else print "ℹ️ Skipping wait for pod termination (--no-wait flag specified)".

(** Lines 499-541: the namespace, only when every stack is deleted. *)
Definition reconcile_namespace (env : Env) (c : DeleteCmd)
    (helmPath kubectlPath : string) : M unit :=
  if All c && negb (is_empty helmPath) then
    exec [helmPath; "list"; "-n"; "buildkite"; "--output"; "json"];;
    let hasRemainingReleases :=
      bool_decide ((helmListAfter env).2 = None)
      && (0 <? String.length (helmListAfter env).1)%nat
      && strings.Contains (helmListAfter env).1 (quote +:+ "name" +:+ quote +:+ ":") in
    if negb hasRemainingReleases then
      deleteNs ←
        (if negb (Force c) then
           emit (AskConfirm "Do you want to delete the entire 'buildkite' namespace?");;
           match (confirmNamespace env).2 with
           | Some e => exit (Some (wrap "prompt cancelled" e))
           | None => mret (confirmNamespace env).1
           end
         else mret true);
      if deleteNs : bool then
        print "🗑️ Deleting the 'buildkite' namespace...";;
        exec [kubectlPath; "delete"; "namespace"; "buildkite"; "--wait=false"];;
        match deleteNamespace env with
        | Some e => print ("⚠️ Failed to delete namespace: " +:+ e)
        | None => print "✅ Namespace deletion initiated (this may continue in the background)"
        end
      else mret ()
    else print "ℹ️ Not deleting 'buildkite' namespace as it contains other releases"
  else mret ().

(** Lines 549-567, the body of the token loop: the registry deletes the
    token and, when it did, the cache record is cleared. The result is the
    client afterwards and the error of the registry's delete. *)
Definition RevokeToken (env : Env) (client : Client) (cluster : RecentCluster)
  : M (Client * error) :=
  print ("Deleting token for cluster '" +:+ config.Name cluster +:+ "' (ID: "
           +:+ UUID cluster +:+ ")...");;
  err ← lift (DeleteToken client (UUID cluster) (TokenID cluster)
                (registryDelete env (UUID cluster) (TokenID cluster)));
  match err with
  | Some e =>
      print ("⚠️ Failed to delete token for cluster '" +:+ config.Name cluster
               +:+ "': " +:+ e);;
      mret (client, Some e)
  | None =>
      print ("✅ Successfully deleted token for cluster '" +:+ config.Name cluster +:+ "'");;
      let '(ev, client', err') :=
        RemoveTokenFromCluster client (UUID cluster) (TokenID cluster)
          (saveConfig env (UUID cluster)) in
      lift (ev, ());;
      match err' with
      | Some e => print ("⚠️ Warning: Failed to update config after token deletion: " +:+ e)
      | None => mret ()
      end;;
      mret (client', None)
  end.

Fixpoint revoke_all (env : Env) (client : Client) (clusters : list RecentCluster)
    (deletedTokens : nat) : M (Client * nat) :=
  match clusters with
  | [] => mret (client, deletedTokens)
  | cluster :: rest =>
      if has_token cluster then
        '(client', err) ← RevokeToken env client cluster;
        revoke_all env client' rest
          (if err is None then S deletedTokens else deletedTokens)
      else revoke_all env client rest deletedTokens
  end.

(** Lines 543-572: the tokens of the selected clusters are revoked. *)
Definition revoke_tokens (env : Env) (client : option Client)
    (selected : list RecentCluster) : M (option Client * nat) :=
  match client with
  | Some cl =>
      if (0 <? length selected)%nat then
        print (String LF "🗑️ Cleaning up Buildkite agent tokens...");;
        '(cl', deletedTokens) ← revoke_all env cl selected 0;
        mret (Some cl', deletedTokens)
      else
        print (String LF "ℹ️ No agent tokens found to clean up");;
        mret (client, 0)
  | None => mret (None, 0)
  end.

(** Lines 574-584: the closing report. *)
Definition report (c : DeleteCmd) (deletedTokens : nat) : M unit :=
  if All c then
    print (String LF "✨ All Buildkite agent stacks deleted successfully! ✨");;
    if (0 <? deletedTokens)%nat
    then print ("Deleted " +:+ pretty deletedTokens +:+ " agent tokens from Buildkite.")
    else mret ()
  else
    print (String LF "✨ Buildkite agent stack '" +:+ Name c +:+ "' deleted successfully! ✨");;
    if (0 <? deletedTokens)%nat
    then print ("Deleted " +:+ pretty deletedTokens +:+ " agent token(s) from Buildkite.")
    else mret ().

(** Everything after the destructive steps: lines 424-586. *)
Definition finish (env : Env) (c : DeleteCmd) (helmPath kubectlPath : string)
    (client : option Client) (selected : list RecentCluster) (fuel : nat)
  : M (option Client) :=
  await_termination env c kubectlPath fuel;;
  reconcile_namespace env c helmPath kubectlPath;;
  '(client', deletedTokens) ← revoke_tokens env client selected;
  report c deletedTokens;;
  mret client'.

(** Lines 29-422: everything up to and including the destructive steps.
    The value is what the rest of the body reads: the command with its
    target settled, [helmPath], [kubectlPath], [client] and
    [clustersToDelete]. *)
Definition prepare (env : Env) (c : DeleteCmd)
  : M (DeleteCmd * string * string * option Client * list RecentCluster) :=
  '(c, helmPath) ← discover env c;
  '(client, kubectlPath) ← connect env;
  '(selected, info) ← plan env client c;
  confirm env c info;;
  uninstall env c helmPath;;
  delete_ssh_secrets env kubectlPath;;
  delete_resources env c kubectlPath;;
  mret (c, helmPath, kubectlPath, client, selected).

(** [DeleteCmd.Run]. The value of a completed run is the API client as the
    run left it; [fuel] is the number of polls of the wait observed. *)
Definition Run (env : Env) (c : DeleteCmd) (fuel : nat) : M (option Client) :=
  '(c, helmPath, kubectlPath, client, selected) ← prepare env c;
  finish env c helmPath kubectlPath client selected fuel.

(** The stacks the discovery found: the names read off a listing that is
    neither empty nor [[]] (lines 62-72). *)
Definition discovered (env : Env) : list string :=
  let listOutput := (helmList env).1 in
  if (0 <? String.length listOutput)%nat
     && negb (String.eqb (strings.TrimSpace listOutput) "[]")
  then release_names listOutput else [].

(** The events of the discovery up to the listing. *)
Definition discovery_events (env : Env) : list Event :=
  Print "Deleting Buildkite agent stack from Kubernetes..."
  :: (installed_check env).1
  ++ [Print "🔍 Checking for installed Buildkite agent stacks...";
      Exec [(lookHelm env).1; "list"; "-n"; "buildkite"; "-o"; "json"]].

(** Poll [k] of the wait neither times out nor sees the pods gone: the
    time is within the timeout, the query succeeds and shows a pod. *)
Definition still_waiting (env : Env) (c : DeleteCmd) (k : nat) : bool :=
  (elapsed env k <=? wrap64 (Timeout c * second))%Z
  && bool_decide ((getPods env k).2 = None)
  && negb (length (podLines (strings.TrimSpace (getPods env k).1)) =? 0)%nat.

(** The wait times out at poll [n], with pods seen at every poll before. *)
Definition times_out_at (env : Env) (c : DeleteCmd) (n : nat) : bool :=
  forallb (still_waiting env c) (seq 0 n)
  && (wrap64 (Timeout c * second) <? elapsed env n)%Z.

End stack.

(** ** Sequences of calls *)

(** [AddRecentCluster] called for every element of [calls], in order; each
    call comes with the reply of its [config.Save]. *)
Definition upserts (c : Client) (calls : list (Cluster * error)) : Client :=
  foldl (λ c call, (AddRecentCluster c call.1 call.2).1.2) c calls.

(** The cache within its bound and without two records of one uuid. *)
Definition cache_ok (l : list RecentCluster) : Prop :=
  length l ≤ maxRecent ∧ NoDup (UUID <$> l).

(** The record an upsert of [cluster] writes over [old]. *)
Definition replacement (cfg : Config) (cluster : Cluster) (old : RecentCluster)
  : RecentCluster :=
  {| UUID := ID cluster; Name := clName cluster; OrgSlug := bkOrgSlug (Buildkite cfg);
     TokenID := TokenID old;
     TokenVal := if String.eqb (TokenID old) "" then "" else TokenVal old |}.

(** The record an upsert of [cluster] appends. *)
Definition fresh (cfg : Config) (cluster : Cluster) : RecentCluster :=
  {| UUID := ID cluster; Name := clName cluster; OrgSlug := bkOrgSlug (Buildkite cfg);
     TokenID := ""; TokenVal := "" |}.

(** * The rest of the program *)

(** ** More of Go's [strings] package *)

(** [strings.HasPrefix] *)
Definition HasPrefix (s prefix : string) : bool := String.prefix prefix s.

(** [strings.Join] *)
Fixpoint Join (elems : list string) (sep : string) : string :=
  match elems with
  | [] => ""
  | [x] => x
  | x :: rest => x +:+ sep +:+ Join rest sep
  end.

Definition newline : string := String LF EmptyString.

(** ** [internal/utils] *)
Module utils.

(** [TruncateID]; [id[:8]] is the first eight bytes. *)
Definition TruncateID (id shortName : string) (preferShort : bool) : string :=
  if preferShort && negb (String.eqb shortName "") then shortName
  else if (8 <? String.length id)%nat then String.substring 0 8 id +:+ "..."
  else id.

(** [FormatResourceName] *)
Definition FormatResourceName (name id : string) : string :=
  if String.eqb id "" then name
  else name +:+ " (" +:+ TruncateID id "" false +:+ ")".

(** [TruncateOutput]; [None] is the panic of [lines[:maxLines]] on a
    negative [maxLines]. *)
Definition TruncateOutput (output : string) (maxLines : Z) : option string :=
  let lines := strings.Split output LF in
  if (Z.of_nat (length lines) <=? maxLines)%Z then Some output
  else if (maxLines <? 0)%Z then None
  else
    let truncated := take (Z.to_nat maxLines) lines in
    Some (Join truncated newline
            +:+ newline +:+ "... (" +:+ pretty (Z.of_nat (length lines) - maxLines)%Z
            +:+ " more lines truncated)").

End utils.

(** ** [internal/config]: loading and prompting *)
Module configfile.

(** [DefaultConfig] *)
Definition DefaultConfig : Config :=
  {| Buildkite := {| Token := ""; bkOrgSlug := "" |};
     Kubernetes := {| PreferredProvider := "orbstack" |};
     RecentClusters := [] |}.

(** What [os.ReadFile] answers: the data, an error for which
    [os.IsNotExist] holds, or another error. *)
Inductive ReadFile :=
| FileData (data : string)
| FileNotExist (err : string)
| FileError (err : string).

(** [Load]. [path] is the reply of [configFilePath], [dir] is
    [filepath.Dir(path)], [mkdir] the error of [os.MkdirAll], and
    [unmarshal] is [json.Unmarshal] into a zero [Config]. *)
Definition Load (path : string * error) (dir : string) (mkdir : error)
    (file : ReadFile) (unmarshal : string → Config * error)
  : list Event * (option Config * error) :=
  match path.2 with
  | Some e => ([], (None, Some e))
  | None =>
      match mkdir with
      | Some e =>
          ([], (None, Some (wrap ("failed to create config directory " +:+ dir) e)))
      | None =>
          match file with
          | FileNotExist _ =>
              ([Print ("Config file not found at " +:+ path.1 +:+ ", using defaults.")],
               (Some DefaultConfig, None))
          | FileError e =>
              ([], (None, Some (wrap ("failed to read config file " +:+ path.1) e)))
          | FileData data =>
              if (String.length data =? 0)%nat then
                ([Print ("Config file at " +:+ path.1 +:+ " is empty, using defaults.")],
                 (Some DefaultConfig, None))
              else
                match (unmarshal data).2 with
                | Some e =>
                    ([], (None, Some (wrap ("failed to parse config file " +:+ path.1
                                              +:+ " (invalid JSON?)") e)))
                | None =>
                    ([Print ("Configuration loaded from " +:+ path.1)],
                     (Some (unmarshal data).1, None))
                end
          end
      end
  end.

(** [PromptForInput]; [line] is what [ReadString] returned. *)
Definition PromptForInput (prompt : string) (line : string * error)
  : list Event * (string * error) :=
  ([Print prompt],
   match line.2 with
   | Some e => ("", Some (wrap "failed to read input" e))
   | None => (strings.TrimSpace line.1, None)
   end).

(** [PromptForPassword]; [password] is what [term.ReadPassword] returned. *)
Definition PromptForPassword (prompt : string) (password : string * error)
  : list Event * (string * error) :=
  match password.2 with
  | Some e => ([Print prompt], ("", Some (wrap "failed to read password" e)))
  | None => ([Print prompt; Print ""], (password.1, None))
  end.

End configfile.

(** ** [cmd]: the configure command *)
Module cmd.

Record ConfigureCmd := { Force : bool }.

Definition with_Buildkite (cfg : Config) (token orgSlug : string) : Config :=
  {| Buildkite := {| Token := token; bkOrgSlug := orgSlug |};
     Kubernetes := Kubernetes cfg; RecentClusters := RecentClusters cfg |}.

(** [ConfigureCmd.Run]. [load] is what [config.Load] returned, [line] and
    [password] what the terminal answered, [save] the error of
    [config.Save]. *)
Definition Run (c : ConfigureCmd) (load : option Config * error)
    (line password : string * error) (save : error) : stack.M unit :=
  stack.print "Configuring Buildkite settings...";;
  match load with
  | (_, Some e) => stack.exit (Some (wrap "failed to load configuration" e))
  | (None, None) => stack.panic
  | (Some cfg, None) =>
      '(orgSlug, err) ← stack.lift
        (configfile.PromptForInput
           ("Enter Buildkite Organisation Slug [" +:+ bkOrgSlug (Buildkite cfg) +:+ "]: ")
           line);
      match err with
      | Some e => stack.exit (Some e)
      | None =>
      if negb (String.eqb orgSlug "") || negb (String.eqb (bkOrgSlug (Buildkite cfg)) "")
      then
        let org := if negb (String.eqb orgSlug "") then orgSlug
                   else bkOrgSlug (Buildkite cfg) in
        '(token, err) ← stack.lift
          (configfile.PromptForPassword
             "Enter Buildkite API Token (will not be shown): " password);
        match err with
        | Some e => stack.exit (Some e)
        | None =>
        if negb (String.eqb token "") || negb (String.eqb (Token (Buildkite cfg)) "")
        then
          let tok := if negb (String.eqb token "") then token
                     else Token (Buildkite cfg) in
          let cfg' := with_Buildkite cfg tok org in
          stack.emit (SaveConfig cfg');;
          match save with
          | Some e => stack.exit (Some (wrap "failed to save configuration" e))
          | None => stack.print "Configuration saved successfully."
          end
        else stack.exit (Some "buildkite API token cannot be empty")
        end
      else stack.exit (Some "buildkite organisation slug cannot be empty")
      end
  end.

End cmd.

(** ** [cmd/stack]: the cluster menu of the create command *)
Module create.

Record ClusterOption := {
  optName : string;
  optUUID : string;
  IsRecent : bool;
  Original : Cluster
}.

Definition separator : ClusterOption :=
  {| optName := "─────────────────────────"; optUUID := ""; IsRecent := false;
     Original := {| ID := ""; clName := "" |} |}.

Definition recent_option (cluster : Cluster) : ClusterOption :=
  {| optName := "🔄 " +:+ clName cluster; optUUID := ID cluster; IsRecent := true;
     Original := cluster |}.

Definition other_option (cluster : Cluster) : ClusterOption :=
  {| optName := clName cluster; optUUID := ID cluster; IsRecent := false;
     Original := cluster |}.

(** [recentMap[id]] after the first loop: [id] is the uuid of a record. *)
Definition recentMap (recentClusters : list RecentCluster) (id : string) : bool :=
  existsb (λ recent, String.eqb (UUID recent) id) recentClusters.

(** [clusterOptions]: the recent clusters that the registry still lists,
    a separator when the cache is not empty, then the other clusters. *)
Definition clusterOptions (clusters : list Cluster)
    (recentClusters : list RecentCluster) : list ClusterOption :=
  flat_map
    (λ recent,
       match List.find (λ cluster, String.eqb (ID cluster) (UUID recent)) clusters with
       | Some cluster => [recent_option cluster]
       | None => []
       end) recentClusters
  ++ (if (0 <? length recentClusters)%nat then [separator] else [])
  ++ flat_map
       (λ cluster, if recentMap recentClusters (ID cluster) then []
                   else [other_option cluster]) clusters.

(** [selectableOptions]: the options with a uuid. *)
Definition selectableOptions (clusters : list Cluster)
    (recentClusters : list RecentCluster) : list ClusterOption :=
  List.filter (λ opt, negb (String.eqb (optUUID opt) ""))
    (clusterOptions clusters recentClusters).

End create.

(** The clusters behind the recent options, and behind the other ones. *)
Definition recent_originals (clusters : list Cluster) (recentClusters : list RecentCluster)
  : list Cluster :=
  flat_map (λ recent,
              match List.find (λ cluster, String.eqb (ID cluster) (UUID recent)) clusters with
              | Some cluster => [cluster]
              | None => []
              end) recentClusters.

Definition other_originals (clusters : list Cluster) (recentClusters : list RecentCluster)
  : list Cluster :=
  List.filter (λ cluster, negb (create.recentMap recentClusters (ID cluster))) clusters.

(** ** Kinds of events *)

(** An event that removes something: a helm uninstall, a kubectl delete,
    the deletion of a token at the registry, a write of the configuration. *)
Definition destructive (e : Event) : bool :=
  match e with
  | Exec argv =>
      match argv !! 1 with
      | Some verb => String.eqb verb "uninstall" || String.eqb verb "delete"
      | None => false
      end
  | RegistryDeleteToken _ _ _ => true
  | SaveConfig _ => true
  | _ => false
  end.

(** An event that waits for the user. *)
Definition is_prompt (e : Event) : bool :=
  match e with
  | AskSelect _ _ | AskConfirm _ => true
  | _ => false
  end.

(** A command that uninstalls a release: its verb is [uninstall]. *)
Definition is_uninstall (e : Event) : bool :=
  match e with
  | Exec argv =>
      match argv !! 1 with
      | Some verb => String.eqb verb "uninstall"
      | None => false
      end
  | _ => false
  end.

(** A command that only reads: a [get], [version], [cluster-info] or
    [config] of kubectl. *)
Definition reads (e : Event) : bool :=
  match e with
  | Exec (_ :: verb :: _) =>
      String.eqb verb "get" || String.eqb verb "version"
      || String.eqb verb "cluster-info" || String.eqb verb "config"
  | _ => false
  end.

(** Poll [k] of the wait finds no pod left: the query fails, or it shows
    no pod line. *)
Definition pods_gone (env : stack.Env) (k : nat) : bool :=
  negb (bool_decide ((stack.getPods env k).2 = None))
  || (length (stack.podLines (strings.TrimSpace (stack.getPods env k).1)) =? 0)%nat.

(** The deletions of the registry that succeed, among [clusters]. *)
Definition revoked (env : stack.Env) (clusters : list RecentCluster) : list RecentCluster :=
  List.filter
    (λ r, stack.has_token r
          && bool_decide (stack.registryDelete env (UUID r) (TokenID r) = None))
    clusters.

(** ** Concrete values for the examples *)

Definition rec (uuid name tokenID tokenVal : string) : RecentCluster :=
  {| UUID := uuid; Name := name; OrgSlug := "acme";
     TokenID := tokenID; TokenVal := tokenVal |}.

Definition cfg_of (l : list RecentCluster) : Config :=
  {| Buildkite := {| Token := "bkua_x"; bkOrgSlug := "acme" |};
     Kubernetes := {| PreferredProvider := "orbstack" |};
     RecentClusters := l |}.

Definition client_of (l : list RecentCluster) : Client :=
  {| config := Some (cfg_of l); client := Some sdk |}.

Definition cluster_of (uuid name : string) : Cluster :=
  {| ID := uuid; clName := name |}.

(** A cache at its bound: ten records, [A] at the head with a token. *)
Definition full_cache : list RecentCluster :=
  [rec "A" "alpha" "tok-a" "secret-a"; rec "B" "beta" "" ""; rec "C" "gamma" "" "";
   rec "D" "delta" "" ""; rec "E" "epsilon" "" ""; rec "F" "zeta" "" "";
   rec "G" "eta" "" ""; rec "H" "theta" "" ""; rec "I" "iota" "" "";
   rec "J" "kappa" "" ""].

(** A compact one-line listing of helm, one release per line. *)
Definition listing_line (name : string) : string :=
  "{" +:+ quote +:+ "name" +:+ quote +:+ ":" +:+ quote +:+ name +:+ quote +:+ "}".

Definition two_stacks : string :=
  "[" +:+ listing_line "prod-agents" +:+ "," +:+ String LF (listing_line "dev-agents" +:+ "]").

(** An outside where everything answers; the replies the examples vary
    are the arguments. One pod stays present at every poll, and poll [k]
    happens [2k] seconds after the start. *)
Definition env_of (listing : string) (cache : list RecentCluster)
    (registry : error) (namespacePrompt : bool * error) : stack.Env :=
  {| stack.lookKubectlInstalled := ("/usr/bin/kubectl", None);
     stack.getNamespace := ("buildkite   Active   5d", None);
     stack.getAgentPods := ("agent-0   1/1   Running", None);
     stack.lookHelm := ("/usr/bin/helm", None);
     stack.helmList := (listing, None);
     stack.selectStack := (0, None);
     stack.NewClient := Some (client_of cache);
     stack.lookKubectlVerify := ("/usr/bin/kubectl", None);
     stack.kubectlVersion := None;
     stack.getClusterInfo := ("Kubernetes control plane is running at https://127.0.0.1:6443", None);
     stack.lookKubectl := ("/usr/bin/kubectl", None);
     stack.currentContext := ("kind-dev", None);
     stack.lookKubectlDetect := ("/usr/bin/kubectl", None);
     stack.detectContext := ("kind-dev", None);
     stack.detectClusterInfo := ("", None);
     stack.lookKubectlStatus := ("/usr/bin/kubectl", None);
     stack.statusPods := ("agent-0   1/1   Running", None);
     stack.listClusters := ([], None);
     stack.confirmDelete := (true, None);
     stack.helmListAll := (listing, None);
     stack.helmUninstall := λ _, None;
     stack.getSecrets := ("", None);
     stack.deleteSecret := λ _, None;
     stack.getResources := λ _, "";
     stack.deleteResources := λ _, None;
     stack.elapsed := λ k, (Z.of_nat k * 2 * stack.second)%Z;
     stack.getPods := λ _, ("agent-0   1/1   Running", None);
     stack.helmListAfter := ("[]", None);
     stack.confirmNamespace := namespacePrompt;
     stack.deleteNamespace := None;
     stack.registryDelete := λ _ _, registry;
     stack.saveConfig := λ _, None |}.

Definition cmd_of (name : string) (all force : bool) : stack.DeleteCmd :=
  {| stack.Force := force; stack.Timeout := 3; stack.Name := name;
     stack.All := all; stack.NoWait := false |}.

(** The same outside, with the deletion declined at the prompt. *)
Definition declining (env : stack.Env) : stack.Env :=
  {| stack.lookKubectlInstalled := stack.lookKubectlInstalled env;
     stack.getNamespace := stack.getNamespace env;
     stack.getAgentPods := stack.getAgentPods env;
     stack.lookHelm := stack.lookHelm env;
     stack.helmList := stack.helmList env;
     stack.selectStack := stack.selectStack env;
     stack.NewClient := stack.NewClient env;
     stack.lookKubectlVerify := stack.lookKubectlVerify env;
     stack.kubectlVersion := stack.kubectlVersion env;
     stack.getClusterInfo := stack.getClusterInfo env;
     stack.lookKubectl := stack.lookKubectl env;
     stack.currentContext := stack.currentContext env;
     stack.lookKubectlDetect := stack.lookKubectlDetect env;
     stack.detectContext := stack.detectContext env;
     stack.detectClusterInfo := stack.detectClusterInfo env;
     stack.lookKubectlStatus := stack.lookKubectlStatus env;
     stack.statusPods := stack.statusPods env;
     stack.listClusters := stack.listClusters env;
     stack.confirmDelete := (false, None);
     stack.helmListAll := stack.helmListAll env;
     stack.helmUninstall := stack.helmUninstall env;
     stack.getSecrets := stack.getSecrets env;
     stack.deleteSecret := stack.deleteSecret env;
     stack.getResources := stack.getResources env;
     stack.deleteResources := stack.deleteResources env;
     stack.elapsed := stack.elapsed env;
     stack.getPods := stack.getPods env;
     stack.helmListAfter := stack.helmListAfter env;
     stack.confirmNamespace := stack.confirmNamespace env;
     stack.deleteNamespace := stack.deleteNamespace env;
     stack.registryDelete := stack.registryDelete env;
     stack.saveConfig := stack.saveConfig env |}.

(** The same outside, where the namespace of the agent stack is missing. *)
Definition not_installed (env : stack.Env) : stack.Env :=
  {| stack.lookKubectlInstalled := stack.lookKubectlInstalled env;
     stack.getNamespace := ("", None);
     stack.getAgentPods := stack.getAgentPods env;
     stack.lookHelm := stack.lookHelm env;
     stack.helmList := stack.helmList env;
     stack.selectStack := stack.selectStack env;
     stack.NewClient := stack.NewClient env;
     stack.lookKubectlVerify := stack.lookKubectlVerify env;
     stack.kubectlVersion := stack.kubectlVersion env;
     stack.getClusterInfo := stack.getClusterInfo env;
     stack.lookKubectl := stack.lookKubectl env;
     stack.currentContext := stack.currentContext env;
     stack.lookKubectlDetect := stack.lookKubectlDetect env;
     stack.detectContext := stack.detectContext env;
     stack.detectClusterInfo := stack.detectClusterInfo env;
     stack.lookKubectlStatus := stack.lookKubectlStatus env;
     stack.statusPods := stack.statusPods env;
     stack.listClusters := stack.listClusters env;
     stack.confirmDelete := stack.confirmDelete env;
     stack.helmListAll := stack.helmListAll env;
     stack.helmUninstall := stack.helmUninstall env;
     stack.getSecrets := stack.getSecrets env;
     stack.deleteSecret := stack.deleteSecret env;
     stack.getResources := stack.getResources env;
     stack.deleteResources := stack.deleteResources env;
     stack.elapsed := stack.elapsed env;
     stack.getPods := stack.getPods env;
     stack.helmListAfter := stack.helmListAfter env;
     stack.confirmNamespace := stack.confirmNamespace env;
     stack.deleteNamespace := stack.deleteNamespace env;
     stack.registryDelete := stack.registryDelete env;
     stack.saveConfig := stack.saveConfig env |}.

(** The same outside, where helm fails to list the releases. *)
Definition listing_fails (env : stack.Env) : stack.Env :=
  {| stack.lookKubectlInstalled := stack.lookKubectlInstalled env;
     stack.getNamespace := stack.getNamespace env;
     stack.getAgentPods := stack.getAgentPods env;
     stack.lookHelm := stack.lookHelm env;
     stack.helmList := ("Error: Kubernetes cluster unreachable", Some "exit status 1");
     stack.selectStack := stack.selectStack env;
     stack.NewClient := stack.NewClient env;
     stack.lookKubectlVerify := stack.lookKubectlVerify env;
     stack.kubectlVersion := stack.kubectlVersion env;
     stack.getClusterInfo := stack.getClusterInfo env;
     stack.lookKubectl := stack.lookKubectl env;
     stack.currentContext := stack.currentContext env;
     stack.lookKubectlDetect := stack.lookKubectlDetect env;
     stack.detectContext := stack.detectContext env;
     stack.detectClusterInfo := stack.detectClusterInfo env;
     stack.lookKubectlStatus := stack.lookKubectlStatus env;
     stack.statusPods := stack.statusPods env;
     stack.listClusters := stack.listClusters env;
     stack.confirmDelete := stack.confirmDelete env;
     stack.helmListAll := stack.helmListAll env;
     stack.helmUninstall := stack.helmUninstall env;
     stack.getSecrets := stack.getSecrets env;
     stack.deleteSecret := stack.deleteSecret env;
     stack.getResources := stack.getResources env;
     stack.deleteResources := stack.deleteResources env;
     stack.elapsed := stack.elapsed env;
     stack.getPods := stack.getPods env;
     stack.helmListAfter := stack.helmListAfter env;
     stack.confirmNamespace := stack.confirmNamespace env;
     stack.deleteNamespace := stack.deleteNamespace env;
     stack.registryDelete := stack.registryDelete env;
     stack.saveConfig := stack.saveConfig env |}.

(** The same outside, where the pods are gone from poll [n] on. *)
Definition pods_leave_at (env : stack.Env) (n : nat) : stack.Env :=
  {| stack.lookKubectlInstalled := stack.lookKubectlInstalled env;
     stack.getNamespace := stack.getNamespace env;
     stack.getAgentPods := stack.getAgentPods env;
     stack.lookHelm := stack.lookHelm env;
     stack.helmList := stack.helmList env;
     stack.selectStack := stack.selectStack env;
     stack.NewClient := stack.NewClient env;
     stack.lookKubectlVerify := stack.lookKubectlVerify env;
     stack.kubectlVersion := stack.kubectlVersion env;
     stack.getClusterInfo := stack.getClusterInfo env;
     stack.lookKubectl := stack.lookKubectl env;
     stack.currentContext := stack.currentContext env;
     stack.lookKubectlDetect := stack.lookKubectlDetect env;
     stack.detectContext := stack.detectContext env;
     stack.detectClusterInfo := stack.detectClusterInfo env;
     stack.lookKubectlStatus := stack.lookKubectlStatus env;
     stack.statusPods := stack.statusPods env;
     stack.listClusters := stack.listClusters env;
     stack.confirmDelete := stack.confirmDelete env;
     stack.helmListAll := stack.helmListAll env;
     stack.helmUninstall := stack.helmUninstall env;
     stack.getSecrets := stack.getSecrets env;
     stack.deleteSecret := stack.deleteSecret env;
     stack.getResources := stack.getResources env;
     stack.deleteResources := stack.deleteResources env;
     stack.elapsed := stack.elapsed env;
     stack.getPods := λ k, if (k <? n)%nat then stack.getPods env k else ("", None);
     stack.helmListAfter := stack.helmListAfter env;
     stack.confirmNamespace := stack.confirmNamespace env;
     stack.deleteNamespace := stack.deleteNamespace env;
     stack.registryDelete := stack.registryDelete env;
     stack.saveConfig := stack.saveConfig env |}.

(** * Properties *)

(** ** The loops over the cache *)

Lemma first_index_Some p l i r :
  first_index p l = Some (i, r) ↔
  l !! i = Some r ∧ p r = true ∧ ∀ j y, l !! j = Some y → j < i → p y ≠ true.
Proof. unfold first_index. apply (list_find_Some (λ x, p x = true)). Qed.

Lemma first_index_None p l :
  first_index p l = None ↔ ∀ r, r ∈ l → p r ≠ true.
Proof.
  unfold first_index. rewrite (list_find_None (λ x, p x = true)).
  by rewrite Forall_forall.
Qed.

Lemma has_uuid_true u r : has_uuid u r = true ↔ UUID r = u.
Proof. unfold has_uuid. apply String.eqb_eq. Qed.

Lemma first_index_uuid_None u l :
  first_index (has_uuid u) l = None ↔ u ∉ UUID <$> l.
Proof.
  rewrite first_index_None. split.
  - intros H [r [-> Hr]]%list_elem_of_fmap. by apply (H r), has_uuid_true.
  - intros H r Hr Hu%has_uuid_true. apply H. subst u. by apply list_elem_of_fmap_2.
Qed.

Lemma first_index_uuid_present u l :
  u ∈ UUID <$> l → ∃ i r, first_index (has_uuid u) l = Some (i, r).
Proof.
  intros Hin. destruct (first_index (has_uuid u) l) as [[i r]|] eqn:E; [eauto|].
  by apply first_index_uuid_None in E.
Qed.

(** ** [AddRecentCluster], case by case *)

Lemma AddRecentCluster_present c cfg cluster save i old :
  config c = Some cfg →
  first_index (has_uuid (ID cluster)) (RecentClusters cfg) = Some (i, old) →
  GetRecentClusters (AddRecentCluster c cluster save).1.2
  = <[i := replacement cfg cluster old]> (RecentClusters cfg).
Proof.
  intros Hc Hf. unfold AddRecentCluster. rewrite Hc. simpl. rewrite Hf. simpl.
  f_equal. unfold replacement, with_token. simpl.
  destruct (String.eqb_spec (TokenID old) "") as [->|]; done.
Qed.

Lemma AddRecentCluster_absent c cfg cluster save :
  config c = Some cfg →
  ID cluster ∉ UUID <$> RecentClusters cfg →
  GetRecentClusters (AddRecentCluster c cluster save).1.2
  = drop (length (RecentClusters cfg) + 1 - maxRecent)
         (RecentClusters cfg ++ [fresh cfg cluster]).
Proof.
  intros Hc Hf%first_index_uuid_None. unfold AddRecentCluster. rewrite Hc. simpl.
  rewrite Hf. simpl. fold (fresh cfg cluster). rewrite length_app. simpl.
  destruct (Nat.ltb_spec maxRecent (length (RecentClusters cfg) + 1)); [done|].
  replace (length (RecentClusters cfg) + 1 - maxRecent) with 0 by lia. done.
Qed.

Lemma AddRecentCluster_config c cfg cluster save :
  config c = Some cfg → ∃ cfg', config (AddRecentCluster c cluster save).1.2 = Some cfg'.
Proof.
  intros Hc. unfold AddRecentCluster. rewrite Hc. simpl.
  destruct (first_index _ _) as [[i old]|]; simpl; eauto.
Qed.

Lemma upserts_snoc c calls cluster save :
  upserts c (calls ++ [(cluster, save)])
  = (AddRecentCluster (upserts c calls) cluster save).1.2.
Proof. unfold upserts. by rewrite foldl_app. Qed.

Lemma upserts_config c cfg calls :
  config c = Some cfg → ∃ cfg', config (upserts c calls) = Some cfg'.
Proof.
  intros Hc. induction calls as [|[cluster save] calls IH] using rev_ind; [by eauto|].
  destruct IH as [cfg1 H1]. rewrite upserts_snoc. by eapply AddRecentCluster_config.
Qed.

Lemma GetRecentClusters_config c cfg :
  config c = Some cfg → GetRecentClusters c = RecentClusters cfg.
Proof. intros Hc. unfold GetRecentClusters. by rewrite Hc. Qed.

Lemma AddRecentCluster_step_ok c cfg cluster save :
  config c = Some cfg → cache_ok (RecentClusters cfg) →
  cache_ok (GetRecentClusters (AddRecentCluster c cluster save).1.2).
Proof.
  intros Hc [Hlen Hnd].
  destruct (decide (ID cluster ∈ UUID <$> RecentClusters cfg)) as [Hin|Hin].
  - destruct (first_index_uuid_present _ _ Hin) as (i & old & Hf).
    rewrite (AddRecentCluster_present _ _ _ _ _ _ Hc Hf).
    apply first_index_Some in Hf as (Hi & Hu%has_uuid_true & _).
    split; [by rewrite length_insert|].
    rewrite list_fmap_insert. simpl. rewrite list_insert_id; [done|].
    by rewrite list_lookup_fmap, Hi, <- Hu.
  - rewrite (AddRecentCluster_absent _ _ _ _ Hc Hin). split.
    + rewrite length_drop, length_app. simpl. unfold maxRecent in *. lia.
    + rewrite fmap_drop. eapply sublist_NoDup; [|apply sublist_drop].
      rewrite fmap_app. apply NoDup_app. split_and!; [done| |apply NoDup_singleton].
      intros u Hu ->%list_elem_of_singleton. done.
Qed.

Lemma upserts_ok c cfg calls :
  config c = Some cfg → cache_ok (RecentClusters cfg) →
  cache_ok (GetRecentClusters (upserts c calls)).
Proof.
  intros Hc Hok. induction calls as [|[cluster save] calls IH] using rev_ind.
  - simpl. by rewrite (GetRecentClusters_config _ _ Hc).
  - rewrite upserts_snoc. destruct (upserts_config _ _ calls Hc) as [cfg1 H1].
    rewrite (GetRecentClusters_config _ _ H1) in IH.
    by eapply AddRecentCluster_step_ok.
Qed.

Lemma filter_all_true {A} (p : A → bool) (l : list A) :
  (∀ x, p x = true) → List.filter p l = l.
Proof. intros Hp. induction l as [|x l IH]; simpl; [done|]. by rewrite Hp, IH. Qed.

Lemma Contains_empty s : strings.Contains s "" = true.
Proof. by destruct s. Qed.

(** ** The recent-cluster cache *)

Lemma AddRecentCluster_Buildkite c cfg cluster save cfg' :
  config c = Some cfg →
  config (AddRecentCluster c cluster save).1.2 = Some cfg' →
  Buildkite cfg' = Buildkite cfg.
Proof.
  intros Hc. unfold AddRecentCluster. rewrite Hc. simpl.
  destruct (first_index _ _) as [[i old]|]; simpl; by intros [= <-].
Qed.

Lemma upserts_Buildkite c cfg calls :
  config c = Some cfg →
  ∀ cfg', config (upserts c calls) = Some cfg' → Buildkite cfg' = Buildkite cfg.
Proof.
  intros Hc. induction calls as [|[cluster save] calls IH] using rev_ind.
  - simpl. intros cfg' H. congruence.
  - intros cfg'. rewrite upserts_snoc.
    destruct (upserts_config _ _ calls Hc) as [cfg1 H1]. intros H.
    rewrite (AddRecentCluster_Buildkite _ _ _ _ _ H1 H). by apply IH.
Qed.

(** C1, as stated, fails: with the cache [A; B], an upsert of [A] leaves
    [B] last; the record of [A] is rewritten where it stands. *)
Lemma upsert_present_is_not_moved :
  let c := client_of [rec "A" "alpha" "" ""; rec "B" "beta" "" ""] in
  let after := GetRecentClusters (upserts c [(cluster_of "A" "alpha", None)]) in
  UUID <$> after = ["A"; "B"] ∧ UUID <$> last after ≠ Some "A".
Proof. vm_compute. split; [reflexivity|discriminate]. Qed.

(** C1, amended: after any sequence of upserts, the uuid upserted last is
    in the list. When it was not in the cache before that call, the last
    element of the list is the new record: the uuid and the name given,
    the configured org slug, no token. When it was, the record is
    rewritten where it stands: the first record of that uuid is replaced,
    at its index, by a record with the name given and the configured org
    slug that keeps the token ID of the old record, and its token value
    when the token ID is not empty; every other record, and so the order
    of the uuids, is unchanged. *)
Theorem upsert_most_recent_position c cfg calls cluster save :
  config c = Some cfg →
  let before := GetRecentClusters (upserts c calls) in
  let after := GetRecentClusters (upserts c (calls ++ [(cluster, save)])) in
  ID cluster ∈ UUID <$> after
  ∧ (ID cluster ∉ UUID <$> before →
     UUID <$> last after = Some (ID cluster)
     ∧ last after = Some (fresh cfg cluster))
  ∧ (ID cluster ∈ UUID <$> before →
     UUID <$> after = UUID <$> before
     ∧ ∃ i old,
         before !! i = Some old ∧ UUID old = ID cluster
         ∧ (∀ j y, before !! j = Some y → j < i → UUID y ≠ ID cluster)
         ∧ after = <[i := replacement cfg cluster old]> before).
Proof.
  intros Hc before after.
  destruct (upserts_config _ _ calls Hc) as [cfg1 H1].
  pose proof (upserts_Buildkite _ _ calls Hc cfg1 H1) as Hbk.
  assert (Hb : before = RecentClusters cfg1) by by apply GetRecentClusters_config.
  assert (Hrep : ∀ old, replacement cfg1 cluster old = replacement cfg cluster old).
  { intros old. unfold replacement. by rewrite Hbk. }
  assert (Hfresh : fresh cfg1 cluster = fresh cfg cluster).
  { unfold fresh. by rewrite Hbk. }
  subst after. rewrite upserts_snoc.
  destruct (decide (ID cluster ∈ UUID <$> before)) as [Hin|Hin]; rewrite Hb in Hin.
  - destruct (first_index_uuid_present _ _ Hin) as (i & old & Hf).
    rewrite (AddRecentCluster_present _ _ _ _ _ _ H1 Hf), <- Hb, Hrep.
    apply first_index_Some in Hf as (Hi & Hu%has_uuid_true & Hfirst).
    assert (Heq : UUID <$> <[i:=replacement cfg cluster old]> before = UUID <$> before).
    { rewrite list_fmap_insert. simpl. apply list_insert_id.
      by rewrite list_lookup_fmap, Hb, Hi, <- Hu. }
    rewrite Heq, Hb. split_and!; [done| |].
    + intros Hn. by destruct Hn.
    + intros _. split; [done|]. exists i, old. split_and!; [done|done| |done].
      intros j y Hj Hlt Hy. by apply (Hfirst j y Hj Hlt), has_uuid_true.
  - rewrite (AddRecentCluster_absent _ _ _ _ H1 Hin), <- Hb, Hfresh.
    rewrite drop_app_le by (unfold maxRecent; lia).
    split_and!.
    + rewrite fmap_app. apply elem_of_app. right. simpl. apply list_elem_of_singleton. done.
    + intros _. by rewrite last_snoc.
    + rewrite Hb. intros Hin'. by destruct Hin.
Qed.

Lemma upsert_most_recent_position_witness :
  let c := client_of [rec "A" "alpha" "tok-1" "secret"; rec "B" "beta" "" ""] in
  let before := GetRecentClusters (upserts c [(cluster_of "C" "gamma", None)]) in
  let after := GetRecentClusters
                 (upserts c ([(cluster_of "C" "gamma", None)]
                               ++ [(cluster_of "A" "a2", None)])) in
  UUID <$> after = UUID <$> before
  ∧ ∃ i old,
      before !! i = Some old ∧ UUID old = "A"
      ∧ (∀ j y, before !! j = Some y → j < i → UUID y ≠ "A")
      ∧ after = <[i := replacement (cfg_of [rec "A" "alpha" "tok-1" "secret";
                                            rec "B" "beta" "" ""])
                          (cluster_of "A" "a2") old]> before.
Proof.
  intros c before after.
  apply (proj2 (proj2 (upsert_most_recent_position c (cfg_of _)
                         [(cluster_of "C" "gamma", None)]
                         (cluster_of "A" "a2") None eq_refl))).
  apply (bool_decide_unpack _). by vm_compute.
Defined.

(** C2, as stated, fails. The cache is full: [A] to [J], [A] at the head
    and holding a token. [A] is upserted again, which leaves it at the
    head; the insert of [K] then exceeds the bound and drops [A], the
    record upserted last before it, not the least recent one. *)
Lemma eviction_drops_the_record_upserted_last :
  let c := client_of full_cache in
  let touched := GetRecentClusters (upserts c [(cluster_of "A" "alpha", None)]) in
  let after := GetRecentClusters
                 (upserts c [(cluster_of "A" "alpha", None);
                             (cluster_of "K" "lambda", None)]) in
  cache_ok full_cache
  ∧ touched = full_cache
  ∧ UUID <$> after = ["B"; "C"; "D"; "E"; "F"; "G"; "H"; "I"; "J"; "K"].
Proof.
  split_and!; [|by vm_compute|by vm_compute].
  split; [vm_compute; lia|]. apply (bool_decide_unpack _). by vm_compute.
Qed.

(** C2, amended: from a cache of at most 10 records with distinct uuids,
    every sequence of upserts keeps at most 10 records and distinct uuids.
    An upsert of a new uuid keeps the old list with the new record
    appended, minus the records at the head of the list, just enough of
    them for the bound. An upsert of a uuid that is present leaves every
    uuid at its position: the head of the list is the record inserted
    first, whenever it was upserted last. *)
Theorem upsert_bounded_distinct c cfg calls cluster save :
  config c = Some cfg →
  cache_ok (RecentClusters cfg) →
  let before := GetRecentClusters (upserts c calls) in
  let after := GetRecentClusters (upserts c (calls ++ [(cluster, save)])) in
  cache_ok before ∧ cache_ok after
  ∧ (ID cluster ∉ UUID <$> before →
     ∃ dropped new,
       before ++ [new] = dropped ++ after ∧ UUID new = ID cluster
       ∧ length after = min maxRecent (length before + 1))
  ∧ (ID cluster ∈ UUID <$> before → UUID <$> after = UUID <$> before).
Proof.
  intros Hc Hok before after.
  split_and!; [by eapply upserts_ok..| |];
    destruct (upserts_config _ _ calls Hc) as [cfg1 H1];
    assert (Hb : before = RecentClusters cfg1) by (by apply GetRecentClusters_config);
    subst after; rewrite upserts_snoc; intros Hin; rewrite Hb in Hin.
  - rewrite (AddRecentCluster_absent _ _ _ _ H1 Hin), <- Hb.
    exists (take (length before + 1 - maxRecent) (before ++ [fresh cfg1 cluster])),
           (fresh cfg1 cluster).
    split_and!; [by rewrite take_drop|done|].
    rewrite length_drop, length_app. cbn [length]. unfold maxRecent. lia.
  - destruct (first_index_uuid_present _ _ Hin) as (i & old & Hf).
    rewrite (AddRecentCluster_present _ _ _ _ _ _ H1 Hf), <- Hb.
    apply first_index_Some in Hf as (Hi & Hu%has_uuid_true & _).
    rewrite list_fmap_insert. simpl. apply list_insert_id.
    by rewrite list_lookup_fmap, Hb, Hi, <- Hu.
Qed.

Lemma upsert_bounded_distinct_witness :
  let c := client_of full_cache in
  let before := GetRecentClusters (upserts c [(cluster_of "A" "alpha", None)]) in
  let after := GetRecentClusters
                 (upserts c ([(cluster_of "A" "alpha", None)]
                               ++ [(cluster_of "K" "lambda", None)])) in
  cache_ok after
  ∧ ∃ dropped new,
      before ++ [new] = dropped ++ after ∧ UUID new = "K"
      ∧ length after = min maxRecent (length before + 1).
Proof.
  intros c before after.
  assert (Hok : cache_ok full_cache).
  { split; [vm_compute; lia|]. apply (bool_decide_unpack _). by vm_compute. }
  destruct (upsert_bounded_distinct c (cfg_of full_cache)
              [(cluster_of "A" "alpha", None)] (cluster_of "K" "lambda") None
              eq_refl Hok) as (_ & Hafter & Hnew & _).
  split; [exact Hafter|]. apply Hnew.
  apply (bool_decide_unpack _). by vm_compute.
Defined.

(** C3: a record of the cache with a token ID, whose uuid is upserted
    again (the upsert carries no token fields), is followed at the same
    position by a record of that uuid with the same token ID and value. *)
Theorem upsert_keeps_token c cfg cluster save i r :
  config c = Some cfg →
  RecentClusters cfg !! i = Some r →
  UUID r = ID cluster →
  TokenID r ≠ "" →
  ∃ r', GetRecentClusters (AddRecentCluster c cluster save).1.2 !! i = Some r'
        ∧ UUID r' = UUID r ∧ TokenID r' = TokenID r ∧ TokenVal r' = TokenVal r.
Proof.
  intros Hc Hi Hu Ht.
  assert (Hin : ID cluster ∈ UUID <$> RecentClusters cfg).
  { rewrite <- Hu. eapply list_elem_of_fmap_2, list_elem_of_lookup_2, Hi. }
  destruct (first_index_uuid_present _ _ Hin) as (j & old & Hf).
  rewrite (AddRecentCluster_present _ _ _ _ _ _ Hc Hf).
  apply first_index_Some in Hf as (Hj & _ & _).
  destruct (decide (i = j)) as [->|Hne].
  - assert (old = r) as -> by congruence.
    exists (replacement cfg cluster r). split_and!.
    + apply list_lookup_insert_eq. by eapply lookup_lt_Some.
    + done.
    + done.
    + simpl. by destruct (String.eqb_spec (TokenID r) "").
  - exists r. by rewrite list_lookup_insert_ne.
Qed.

Lemma upsert_keeps_token_witness :
  ∃ r', GetRecentClusters
          (AddRecentCluster (client_of [rec "A" "alpha" "tok-1" "secret"])
             (cluster_of "A" "renamed") None).1.2 !! 0 = Some r'
        ∧ UUID r' = "A" ∧ TokenID r' = "tok-1" ∧ TokenVal r' = "secret".
Proof.
  apply (upsert_keeps_token (client_of [rec "A" "alpha" "tok-1" "secret"])
           (cfg_of [rec "A" "alpha" "tok-1" "secret"]) (cluster_of "A" "renamed")
           None 0 (rec "A" "alpha" "tok-1" "secret"));
    [reflexivity | reflexivity | reflexivity | discriminate].
Defined.

(** C10: the empty query of [FindClusterByName] returns the whole cache,
    in cache order, and no error. *)
Theorem find_empty_query_returns_all cfg s :
  FindClusterByName {| config := Some cfg; client := s |} ""
  = (RecentClusters cfg, None).
Proof.
  unfold FindClusterByName. simpl. f_equal.
  apply filter_all_true. intros r. apply Contains_empty.
Qed.

(** ** The token synchroniser *)

Lemma issue_found c s cfg clusterID call ev token save :
  client c = Some s → config c = Some cfg →
  call (bkOrgSlug (Buildkite cfg)) = (ev, (token, None)) →
  issue c clusterID call save
  = (ev ++ (record_token c cfg clusterID token save).1,
     (record_token c cfg clusterID token save).2, (token, None)).
Proof.
  intros Hs Hc Hcall. unfold issue. rewrite Hs, Hc, Hcall.
  by destruct (record_token c cfg clusterID token save).
Qed.

Lemma record_token_present c cfg clusterID token save :
  clusterID ∈ UUID <$> RecentClusters cfg →
  let out := record_token c cfg clusterID token save in
  (∃ r, r ∈ GetRecentClusters out.2 ∧ UUID r = clusterID
        ∧ TokenID r = tkID token ∧ TokenVal r = tkToken token)
  ∧ (∀ e, save = Some e →
       last out.1 = Some (Print ("Warning: Failed to save token ID to config: " +:+ e))).
Proof.
  intros Hin. destruct (first_index_uuid_present _ _ Hin) as (i & r & Hf).
  unfold record_token. rewrite Hf. simpl.
  apply first_index_Some in Hf as (Hi & Hu%has_uuid_true & _). split.
  - exists (with_token r (tkID token) (tkToken token)). split_and!; try done.
    apply list_elem_of_lookup. exists i.
    apply list_lookup_insert_eq. by eapply lookup_lt_Some.
  - by intros e ->.
Qed.

Lemma record_token_absent c cfg clusterID token save :
  clusterID ∉ UUID <$> RecentClusters cfg →
  record_token c cfg clusterID token save = ([], c).
Proof. intros Hf%first_index_uuid_None. unfold record_token. by rewrite Hf. Qed.

(** C9, as stated, fails: a token issued for a cluster that has no record
    in the cache is returned with success, and the cache has no record of
    it afterwards. *)
Lemma issue_without_record_adds_none :
  let token := {| tkID := "tok-9"; tkToken := "secret" |} in
  let out := CreateTokenWithDescription (client_of []) "cluster-1" "kez" (token, None) None in
  out.2 = (token, None) ∧ GetRecentClusters out.1.2 = [].
Proof. by vm_compute. Qed.

(** C9, amended: when the registry call succeeds, [CreateToken] and
    [CreateTokenWithDescription] return the token and no error, whatever
    [config.Save] answers. If the cache has a record of [clusterID], it has
    on return a record of [clusterID] holding the token's ID and value, and
    a failed save shows only as a printed warning, the last event; if the
    cache has no such record, the client is left as it was. *)
Theorem issue_token_recorded c s cfg clusterID arg token save :
  client c = Some s → config c = Some cfg →
  ∀ out,
    out = CreateToken c clusterID arg (token, None) save
    ∨ out = CreateTokenWithDescription c clusterID arg (token, None) save →
    out.2 = (token, None)
    ∧ (clusterID ∈ UUID <$> RecentClusters cfg →
       (∃ r, r ∈ GetRecentClusters out.1.2 ∧ UUID r = clusterID
             ∧ TokenID r = tkID token ∧ TokenVal r = tkToken token)
       ∧ (∀ e, save = Some e →
            last out.1.1
            = Some (Print ("Warning: Failed to save token ID to config: " +:+ e))))
    ∧ (clusterID ∉ UUID <$> RecentClusters cfg → out.1.2 = c).
Proof.
  intros Hs Hc out Hout.
  assert (∃ ev0, out = ([ev0] ++ (record_token c cfg clusterID token save).1,
                        (record_token c cfg clusterID token save).2, (token, None)))
    as [ev0 ->].
  { destruct Hout as [-> | ->]; eexists;
      unfold CreateToken, CreateTokenWithDescription;
      by erewrite issue_found. }
  simpl. split_and!; [done| |].
  - intros Hin. destruct (record_token_present c cfg clusterID token save Hin) as [Hr Hw].
    split; [done|]. intros e He. specialize (Hw e He).
    change (?x :: ?l) with ([x] ++ l). by rewrite last_app, Hw.
  - intros Hin. by rewrite record_token_absent.
Qed.

Lemma issue_token_recorded_witness :
  let token := {| tkID := "tok-9"; tkToken := "secret" |} in
  let c := client_of [rec "A" "alpha" "" ""] in
  (CreateToken c "A" "1.0" (token, None) (Some "disk full")).2 = (token, None).
Proof.
  intros token c.
  exact (proj1 (issue_token_recorded c sdk (cfg_of _) "A" "1.0" token (Some "disk full")
                  eq_refl eq_refl _ (or_introl eq_refl))).
Defined.

Lemma holds_token_of_true clusterID tokenID r :
  holds_token_of clusterID tokenID r = true ↔ UUID r = clusterID ∧ TokenID r = tokenID.
Proof.
  unfold holds_token_of. rewrite andb_true_iff. by rewrite !String.eqb_eq.
Qed.

Lemma RemoveTokenFromCluster_clears c cfg cluster save :
  config c = Some cfg →
  cluster ∈ RecentClusters cfg →
  NoDup (UUID <$> RecentClusters cfg) →
  ∀ r, r ∈ GetRecentClusters
             (RemoveTokenFromCluster c (UUID cluster) (TokenID cluster) save).1.2 →
       UUID r = UUID cluster → TokenID r = "" ∧ TokenVal r = "".
Proof.
  intros Hc Hin Hnd r. unfold RemoveTokenFromCluster. rewrite Hc.
  destruct (first_index _ _) as [[i r0]|] eqn:Hf.
  - apply first_index_Some in Hf as (Hi & [Hu _]%holds_token_of_true & _).
    unfold GetRecentClusters, with_config, with_RecentClusters. simpl.
    intros [j Hj]%list_elem_of_lookup Hr.
    destruct (decide (i = j)) as [->|Hne].
    + rewrite list_lookup_insert_eq in Hj by by eapply lookup_lt_Some.
      by injection Hj as <-.
    + rewrite list_lookup_insert_ne in Hj by done.
      destruct Hne. eapply NoDup_lookup; [exact Hnd| |].
      * by rewrite list_lookup_fmap, Hi.
      * rewrite list_lookup_fmap, Hj. simpl. congruence.
  - apply first_index_None with (r := cluster) in Hf; [|done].
    destruct Hf. by apply holds_token_of_true.
Qed.

Lemma RemoveTokenFromCluster_absent c cfg clusterID tokenID save :
  config c = Some cfg →
  (∀ r, r ∈ RecentClusters cfg → ¬ (UUID r = clusterID ∧ TokenID r = tokenID)) →
  (RemoveTokenFromCluster c clusterID tokenID save).1.2 = c.
Proof.
  intros Hc Hnone. unfold RemoveTokenFromCluster. rewrite Hc.
  destruct (first_index _ _) as [[i r]|] eqn:Hf; [|done].
  apply first_index_Some in Hf as (Hi & Hr%holds_token_of_true & _).
  destruct (Hnone r); [by eapply list_elem_of_lookup_2|done].
Qed.

Lemma DeleteToken_ready c s cfg clusterID tokenID reply :
  client c = Some s → config c = Some cfg →
  (DeleteToken c clusterID tokenID reply).2 = None ↔ reply = None.
Proof.
  intros Hs Hc. unfold DeleteToken. rewrite Hs, Hc. simpl.
  by destruct reply.
Qed.

(** C4, as stated, fails: the first revoke succeeds and clears the record;
    when the registry then answers the second one with an error saying the
    token is gone, the second revoke is a failure. *)
Lemma second_revoke_of_absent_token_fails :
  let cluster := rec "A" "alpha" "tok-1" "secret" in
  let present := env_of "[]" [cluster] None (true, None) in
  let absent := env_of "[]" [cluster] (Some "404 Not Found") (true, None) in
  let c1 := client_of [rec "A" "alpha" "" ""] in
  stack.result (stack.RevokeToken present (client_of [cluster]) cluster)
  = stack.Cont (c1, None)
  ∧ stack.result (stack.RevokeToken absent c1 cluster)
    = stack.Cont (c1, Some "failed to delete token 'tok-1' for cluster 'A': 404 Not Found").
Proof. by vm_compute. Qed.

(** C4, amended: on an initialised client, a revoke succeeds exactly when
    the registry's delete returns no error; any error of the registry, one
    that reports the token as absent included, is the error of the revoke
    and leaves the client as it was. After a successful revoke of a record
    of a cache with distinct uuids, no record of that cluster holds token
    fields. A successful revoke of a pair of cluster and token that no
    record of the cache holds, as in a repeat call that the registry
    accepts, leaves the client as it was. *)
Theorem revoke_follows_registry env c s cfg cluster :
  client c = Some s → config c = Some cfg →
  ∃ c' err,
    stack.result (stack.RevokeToken env c cluster) = stack.Cont (c', err)
    ∧ (err = None ↔ stack.registryDelete env (UUID cluster) (TokenID cluster) = None)
    ∧ (err ≠ None → c' = c)
    ∧ (err = None →
       cluster ∈ RecentClusters cfg → NoDup (UUID <$> RecentClusters cfg) →
       ∀ r, r ∈ GetRecentClusters c' → UUID r = UUID cluster →
            TokenID r = "" ∧ TokenVal r = "")
    ∧ (err = None →
       (∀ r, r ∈ RecentClusters cfg →
             ¬ (UUID r = UUID cluster ∧ TokenID r = TokenID cluster)) →
       c' = c).
Proof.
  intros Hs Hc.
  pose proof (RemoveTokenFromCluster_clears c cfg cluster
                (stack.saveConfig env (UUID cluster)) Hc) as Hclear.
  pose proof (RemoveTokenFromCluster_absent c cfg (UUID cluster) (TokenID cluster)
                (stack.saveConfig env (UUID cluster)) Hc) as Habsent.
  unfold stack.RevokeToken, DeleteToken. rewrite Hs, Hc. simpl.
  destruct (stack.registryDelete env (UUID cluster) (TokenID cluster)) as [e|]; simpl.
  - eexists _, _. split_and!; done.
  - destruct (RemoveTokenFromCluster c (UUID cluster) (TokenID cluster) _)
      as [[ev c'] [e'|]]; simpl in *; eexists _, _; split_and!; try done;
      intros _; try (by apply Hclear); intros Hnone; by rewrite (Habsent Hnone).
Qed.

Lemma revoke_follows_registry_witness :
  let cluster := rec "A" "alpha" "tok-1" "secret" in
  let cleared := [rec "A" "alpha" "" ""] in
  let env := env_of "[]" [cluster] (Some "404 Not Found") (true, None) in
  ∃ c' err,
    stack.result (stack.RevokeToken env (client_of cleared) cluster)
    = stack.Cont (c', err)
    ∧ (err = None ↔ stack.registryDelete env "A" "tok-1" = None)
    ∧ (err ≠ None → c' = client_of cleared)
    ∧ (err = None →
       cluster ∈ cleared → NoDup (UUID <$> cleared) →
       ∀ r, r ∈ GetRecentClusters c' → UUID r = "A" → TokenID r = "" ∧ TokenVal r = "")
    ∧ (err = None →
       (∀ r, r ∈ cleared → ¬ (UUID r = "A" ∧ TokenID r = "tok-1")) →
       c' = client_of cleared).
Proof.
  intros cluster cleared env.
  apply (revoke_follows_registry env (client_of cleared) sdk (cfg_of cleared) cluster);
    reflexivity.
Defined.

(** ** [stack delete] *)

(** Case analysis on every scrutinee of the goal. *)
Ltac cases :=
  repeat match goal with
         | |- context [match ?x with _ => _ end] => destruct x eqn:?; simpl
         end.

Section Delete.
Import stack.

Lemma bind_Return {A B} (m : M A) (f : A → M B) e :
  result m = Return e → m ≫= f = mkM (events m) (Return e).
Proof. intros H. unfold mbind, M_bind. by rewrite H. Qed.

Lemma bind_Cont {A B} (m : M A) (f : A → M B) a :
  result m = Cont a → m ≫= f = mkM (events m ++ events (f a)) (result (f a)).
Proof. intros H. unfold mbind, M_bind. by rewrite H. Qed.

Lemma bind_lift {A B} (r : list Event * A) (f : A → M B) :
  lift r ≫= f = mkM (r.1 ++ events (f r.2)) (result (f r.2)).
Proof. done. Qed.

Lemma events_bind {A B} (m : M A) (f : A → M B) :
  events (m ≫= f)
  = events m ++ match result m with Cont a => events (f a) | _ => [] end.
Proof.
  unfold mbind, M_bind. destruct (result m); simpl; by rewrite ?app_nil_r.
Qed.

Lemma Forall_bind {A B} (P : Event → Prop) (m : M A) (f : A → M B) :
  Forall P (events m) →
  (∀ a, result m = Cont a → Forall P (events (f a))) →
  Forall P (events (m ≫= f)).
Proof.
  intros Hm Hf. rewrite events_bind. apply Forall_app. split; [done|].
  destruct (result m); auto.
Qed.

Lemma elem_of_bind_l {A B} (m : M A) (f : A → M B) e :
  e ∈ events m → e ∈ events (m ≫= f).
Proof. intros H. rewrite events_bind. apply elem_of_app. by left. Qed.

Lemma elem_of_bind_r {A B} (m : M A) (f : A → M B) a e :
  result m = Cont a → e ∈ events (f a) → e ∈ events (m ≫= f).
Proof. intros Hm H. rewrite events_bind, Hm. apply elem_of_app. by right. Qed.

Lemma result_bind_not_Cont {A B} (m : M A) (f : A → M B) :
  (∀ a, result m ≠ Cont a) → ∀ b, result (m ≫= f) ≠ Cont b.
Proof.
  intros Hm b. unfold mbind, M_bind. destruct (result m) eqn:E; simpl; try done.
  by destruct (Hm a).
Qed.

Lemma result_bind {A B} (m : M A) (f : A → M B) a :
  result m = Cont a → result (m ≫= f) = result (f a).
Proof. intros H. by rewrite (bind_Cont m f a H). Qed.

Lemma bind_Cont_inv {A B} (m : M A) (f : A → M B) (b : B) :
  result (m ≫= f) = Cont b → ∃ a, result m = Cont a ∧ result (f a) = Cont b.
Proof.
  unfold mbind, M_bind. destruct (result m) eqn:E; simpl; try done. eauto.
Qed.

Lemma for_each_Forall {A} (P : Event → Prop) (l : list A) (body : A → M unit) :
  (∀ x, Forall P (events (body x))) → Forall P (events (for_each l body)).
Proof.
  intros Hb. induction l as [|x l IH]; simpl; [constructor|].
  apply Forall_bind; auto.
Qed.

Lemma Run_stops_in_discover env c fuel e :
  result (discover env c) = Return e →
  Run env c fuel = mkM (events (discover env c)) (Return e).
Proof.
  intros H. unfold Run, prepare.
  erewrite (bind_Return (discover env c)) by done.
  by erewrite bind_Return.
Qed.

Lemma is_empty_true s : is_empty s = true ↔ s = "".
Proof. apply String.eqb_eq. Qed.

Lemma is_empty_false s : is_empty s = false ↔ s ≠ "".
Proof. apply String.eqb_neq. Qed.

Lemma existsb_eqb_false (x : string) l : x ∉ l → existsb (String.eqb x) l = false.
Proof.
  intros Hx. apply not_true_is_false. intros (y & Hy & ->%String.eqb_eq)%existsb_exists.
  by apply Hx, list_elem_of_In.
Qed.

(** *** The helpers of [internal/k8s] only read *)

Lemma reads_harmless e :
  reads e = true → destructive e = false ∧ is_prompt e = false ∧ is_uninstall e = false.
Proof.
  destruct e as [| | | | |argv| |]; try done.
  destruct argv as [|kubectlPath [|verb args]]; try done. simpl.
  intros H. repeat apply orb_prop in H as [H|H];
    apply String.eqb_eq in H as ->; done.
Qed.

Lemma installed_check_reads env :
  Forall (λ e, reads e = true) (installed_check env).1.
Proof.
  unfold installed_check, k8s.IsAgentStackInstalled, k8s.agent_pods.
  cases; repeat constructor.
Qed.

Lemma connection_check_reads env :
  Forall (λ e, reads e = true) (connection_check env).1.
Proof.
  unfold connection_check, k8s.VerifyClusterConnection.
  cases; repeat constructor.
Qed.

Lemma provider_check_reads env :
  Forall (λ e, reads e = true) (provider_check env).1.
Proof.
  unfold provider_check, k8s.DetectProvider.
  cases; repeat constructor.
Qed.

Lemma pods_check_reads env :
  Forall (λ e, reads e = true) (pods_check env).1.
Proof.
  unfold pods_check, k8s.GetAgentPodsStatus, k8s.agent_pods.
  cases; repeat constructor.
Qed.

(** The connection stage prints and reads, and nothing else. *)
Lemma connect_Forall (P : Event → Prop) env :
  (∀ line, P (Print line)) → (∀ e, reads e = true → P e) →
  Forall P (events (connect env)).
Proof.
  intros HP HR.
  assert (Hreads : ∀ l, Forall (λ e, reads e = true) l → Forall P l).
  { intros l Hl. eapply Forall_impl; [exact Hl|]. auto. }
  unfold connect.
  apply Forall_bind; [destruct (NewClient env); repeat constructor; apply HP|intros _ _].
  apply Forall_bind; [repeat constructor; apply HP|intros _ _].
  apply Forall_bind; [apply Hreads, connection_check_reads|intros [e|] _]; [constructor|].
  destruct (lookKubectl env).2; [constructor|].
  apply Forall_bind; [repeat constructor; by apply HR|intros _ _].
  destruct (currentContext env).2; [constructor|].
  apply Forall_bind; [apply Hreads, provider_check_reads|intros [provider err] _].
  apply Forall_bind.
  { destruct err; [|constructor].
    apply Forall_bind; [repeat constructor; apply HP|intros; constructor]. }
  intros provider' _.
  apply Forall_bind; [destruct (String.eqb _ _); repeat constructor; apply HP|intros _ _].
  apply Forall_bind; [apply Hreads, pods_check_reads|intros [[runningCount totalPods] err'] _].
  apply Forall_bind; [|intros; constructor].
  destruct err'; cases; repeat constructor; apply HP.
Qed.

(** *** The discovery *)

Lemma discover_installed env c :
  IsAgentStackInstalled env = (true, None) →
  discover env c
  = (mkM (Print "Deleting Buildkite agent stack from Kubernetes..."
            :: (installed_check env).1) (Cont ()) ;;
     list_stacks env c).
Proof.
  unfold discover, IsAgentStackInstalled. intros Hi.
  destruct (installed_check env) as [ev [b e]]. simpl in Hi. injection Hi as -> ->.
  unfold mbind, M_bind. simpl. by destruct (result (list_stacks env c)).
Qed.

(** What the discovery does when nothing is installed, or the check
    fails: it stops after the check. *)
Lemma discover_not_installed env c :
  (IsAgentStackInstalled env).2 ≠ None ∨ (IsAgentStackInstalled env).1 = false →
  discover env c
  = mkM (Print "Deleting Buildkite agent stack from Kubernetes..."
           :: (installed_check env).1
           ++ match (IsAgentStackInstalled env).2 with
              | Some _ => []
              | None => [Print "❌ No Buildkite agent stack is installed. Nothing to delete."]
              end)
        (Return match (IsAgentStackInstalled env).2 with
                | Some e => Some (wrap "failed to check if agent stack is installed" e)
                | None => None
                end).
Proof.
  unfold discover, IsAgentStackInstalled. intros H.
  destruct (installed_check env) as [ev [b [e|]]]; simpl in *.
  - unfold mbind, M_bind. simpl. by rewrite app_nil_r.
  - destruct H as [H|H]; [done|]. rewrite H. by unfold mbind, M_bind.
Qed.

Lemma discover_listed env c :
  IsAgentStackInstalled env = (true, None) →
  (lookHelm env).2 = None →
  (helmList env).2 = None →
  discover env c
  = match discovered env with
    | [] => mkM (discovery_events env
                   ++ [Print "❌ No Buildkite agent stacks found in the buildkite namespace."])
                (Return None)
    | stackList =>
        mkM (discovery_events env) (Cont ()) ;;
        c' ← resolve env c (lookHelm env).1 stackList;
        mret (c', (lookHelm env).1)
    end.
Proof.
  intros Hi Hh Hl. rewrite (discover_installed env c Hi).
  unfold list_stacks, discovered, discovery_events. rewrite Hh, Hl.
  destruct ((0 <? String.length (helmList env).1)%nat
            && negb (String.eqb (strings.TrimSpace (helmList env).1) "[]")).
  2:{ unfold mbind, M_bind. simpl. by rewrite <- app_assoc. }
  destruct (release_names (helmList env).1) as [|name rest] eqn:E.
  { unfold mbind, M_bind. simpl. by rewrite <- app_assoc. }
  simpl length. cbn [Nat.eqb].
  unfold mbind, M_bind. simpl.
  destruct (result (resolve env c (lookHelm env).1 (name :: rest)));
    simpl; by rewrite <- ?app_assoc.
Qed.

Lemma Run_no_stacks env c fuel :
  IsAgentStackInstalled env = (true, None) →
  (lookHelm env).2 = None →
  (helmList env).2 = None →
  discovered env = [] →
  Run env c fuel
  = mkM (discovery_events env
           ++ [Print "❌ No Buildkite agent stacks found in the buildkite namespace."])
        (Return None).
Proof.
  intros Hi Hh Hl Hd.
  assert (Hdisc := discover_listed env c Hi Hh Hl). rewrite Hd in Hdisc.
  rewrite (Run_stops_in_discover env c fuel None) by by rewrite Hdisc.
  by rewrite Hdisc.
Qed.

(** When helm is missing or fails to list the releases, a named stack is
    not checked against anything: the discovery ends with the command as
    it was given. *)
Lemma list_stacks_unlisted env c :
  (lookHelm env).2 ≠ None ∨ (helmList env).2 ≠ None →
  Name c ≠ "" →
  result (list_stacks env c) = Cont (c, (lookHelm env).1).
Proof.
  intros H Hn%is_empty_false. unfold list_stacks. rewrite Hn. simpl.
  destruct (lookHelm env).2; [done|].
  destruct (helmList env).2; [done|]. by destruct H.
Qed.

(** *** No stage but the uninstall stage runs an uninstall *)

Lemma resolve_keeps_releases env c helmPath stackList :
  Forall (λ e, is_uninstall e = false) (events (resolve env c helmPath stackList)).
Proof.
  unfold resolve, helm_list_table, mbind, M_bind. simpl. cases; repeat constructor.
Qed.

Lemma discover_keeps_releases env c :
  Forall (λ e, is_uninstall e = false) (events (discover env c)).
Proof.
  unfold discover.
  apply Forall_bind; [repeat constructor|intros _ _].
  apply Forall_bind.
  { eapply Forall_impl; [apply installed_check_reads|]. intros e He.
    by apply reads_harmless. }
  intros [stackInstalled [e|]] _; [constructor|].
  destruct (negb stackInstalled); [repeat constructor|].
  unfold list_stacks.
  destruct (lookHelm env).2.
  { destruct (is_empty (Name c) && negb (All c)); repeat constructor. }
  destruct (helmList env).2.
  { destruct (is_empty (Name c) && negb (All c)); repeat constructor. }
  destruct (_ && _); [|repeat constructor].
  destruct (length _ =? 0)%nat; [repeat constructor|].
  do 2 (apply Forall_bind; [repeat constructor|intros _ _]).
  apply Forall_bind; [by apply resolve_keeps_releases|]. intros; constructor.
Qed.

Lemma plan_keeps_releases env client c :
  Forall (λ e, is_uninstall e = false) (events (plan env client c)).
Proof.
  unfold plan, clusterInfo, ListClusters, bk.ListClusters, lift, mbind, M_bind. simpl.
  cases; simplify_eq/=; repeat constructor.
Qed.

Lemma confirm_keeps_releases env c info :
  Forall (λ e, is_uninstall e = false) (events (confirm env c info)).
Proof.
  unfold confirm, mbind, M_bind. simpl. cases; repeat constructor.
Qed.

Lemma delete_ssh_secrets_keeps_releases env kubectlPath :
  Forall (λ e, is_uninstall e = false) (events (delete_ssh_secrets env kubectlPath)).
Proof.
  unfold delete_ssh_secrets.
  do 2 (apply Forall_bind; [repeat constructor|intros _ _]).
  destruct (getSecrets env).2; [constructor|].
  destruct (0 <? _)%nat; [|repeat constructor].
  apply Forall_bind; [repeat constructor|intros _ _].
  apply for_each_Forall. intros secret. unfold mbind, M_bind. simpl.
  cases; repeat constructor.
Qed.

Lemma delete_resources_keeps_releases env c kubectlPath :
  Forall (λ e, is_uninstall e = false) (events (delete_resources env c kubectlPath)).
Proof.
  unfold delete_resources.
  apply Forall_bind; [repeat constructor|intros _ _].
  apply for_each_Forall. intros resType. unfold mbind, M_bind. simpl.
  cases; repeat constructor.
Qed.

Lemma wait_loop_keeps_releases env c kubectlPath timeoutDuration fuel :
  ∀ k, Forall (λ e, is_uninstall e = false)
         (events (wait_loop env c kubectlPath timeoutDuration fuel k)).
Proof.
  induction fuel as [|fuel IH]; intros k; simpl; [constructor|].
  destruct (_ <? _)%Z; [repeat constructor|].
  apply Forall_bind; [repeat constructor|intros _ _].
  destruct (getPods env k).2; [repeat constructor|].
  destruct (_ =? _)%nat; [repeat constructor|].
  destruct (_ =? _)%nat; [repeat constructor|].
  apply Forall_bind; [repeat constructor|intros _ _]. apply IH.
Qed.

Lemma await_termination_keeps_releases env c kubectlPath fuel :
  Forall (λ e, is_uninstall e = false)
    (events (await_termination env c kubectlPath fuel)).
Proof.
  unfold await_termination. destruct (negb (NoWait c)); [|repeat constructor].
  apply Forall_bind; [repeat constructor|intros _ _]. apply wait_loop_keeps_releases.
Qed.

Lemma reconcile_namespace_keeps_releases env c helmPath kubectlPath :
  Forall (λ e, is_uninstall e = false)
    (events (reconcile_namespace env c helmPath kubectlPath)).
Proof.
  unfold reconcile_namespace, mbind, M_bind. simpl. cases; repeat constructor.
Qed.

Lemma RevokeToken_keeps_releases env cl cluster :
  Forall (λ e, is_uninstall e = false) (events (RevokeToken env cl cluster)).
Proof.
  unfold RevokeToken.
  apply Forall_bind; [repeat constructor|intros _ _].
  apply Forall_bind.
  { unfold lift, DeleteToken, bk.DeleteToken. simpl. cases; repeat constructor. }
  intros [e|] _.
  - apply Forall_bind; [repeat constructor|intros; constructor].
  - apply Forall_bind; [repeat constructor|intros _ _].
    destruct (RemoveTokenFromCluster _ _ _ _) as [[ev cl'] err'] eqn:E.
    apply Forall_bind.
    { unfold lift. simpl. unfold RemoveTokenFromCluster in E.
      revert E. cases; intros [= <- _ _]; repeat constructor. }
    intros _ _. apply Forall_bind; [|intros; constructor].
    destruct err'; repeat constructor.
Qed.

Lemma revoke_all_keeps_releases env clusters :
  ∀ cl k, Forall (λ e, is_uninstall e = false) (events (revoke_all env cl clusters k)).
Proof.
  induction clusters as [|cluster rest IH]; intros cl k; simpl; [constructor|].
  destruct (has_token cluster); [|apply IH].
  apply Forall_bind; [apply RevokeToken_keeps_releases|]. intros [cl' err] _. apply IH.
Qed.

Lemma revoke_tokens_keeps_releases env client selected :
  Forall (λ e, is_uninstall e = false) (events (revoke_tokens env client selected)).
Proof.
  unfold revoke_tokens. destruct client as [cl|]; [|constructor].
  destruct (0 <? _)%nat; [|repeat constructor].
  apply Forall_bind; [repeat constructor|intros _ _].
  apply Forall_bind; [apply revoke_all_keeps_releases|]. intros [cl' n] _. constructor.
Qed.

Lemma report_keeps_releases c n :
  Forall (λ e, is_uninstall e = false) (events (report c n)).
Proof.
  unfold report, mbind, M_bind. simpl. cases; repeat constructor.
Qed.

(** The path handed on by the discovery is what [exec.LookPath] gave. *)
Lemma discover_helmPath env c c' helmPath :
  result (discover env c) = Cont (c', helmPath) → helmPath = (lookHelm env).1.
Proof.
  unfold discover. intros ([] & _ & H)%bind_Cont_inv.
  apply bind_Cont_inv in H as ([stackInstalled [e|]] & _ & H); [done|].
  destruct (negb stackInstalled); [done|].
  revert H. unfold list_stacks.
  destruct (lookHelm env).2.
  { destruct (is_empty (Name c) && negb (All c)); [done|]. by intros [= _ <-]. }
  destruct (helmList env).2.
  { destruct (is_empty (Name c) && negb (All c)); [done|]. by intros [= _ <-]. }
  destruct (_ && _); [|done].
  destruct (length _ =? 0)%nat; [done|].
  intros ([] & _ & H)%bind_Cont_inv.
  apply bind_Cont_inv in H as ([] & _ & H).
  apply bind_Cont_inv in H as (c2 & _ & H). by injection H as _ <-.
Qed.

(** Without a path of helm, no run uninstalls a release. *)
Lemma Run_without_helm env c fuel :
  (lookHelm env).1 = "" →
  Forall (λ e, is_uninstall e = false) (events (Run env c fuel)).
Proof.
  intros Hpath. unfold Run, prepare, finish.
  apply Forall_bind.
  - apply Forall_bind; [apply discover_keeps_releases|]. intros [c' helmPath] Hd.
    apply discover_helmPath in Hd. rewrite Hpath in Hd. subst helmPath.
    apply Forall_bind.
    { apply connect_Forall; [done|]. intros e He. by apply reads_harmless. }
    intros [client kubectlPath] _.
    apply Forall_bind; [apply plan_keeps_releases|]. intros [selected info] _.
    apply Forall_bind; [apply confirm_keeps_releases|]. intros _ _.
    apply Forall_bind; [constructor|]. intros _ _.
    apply Forall_bind; [apply delete_ssh_secrets_keeps_releases|]. intros _ _.
    apply Forall_bind; [apply delete_resources_keeps_releases|]. intros _ _. constructor.
  - intros [[[[c' helmPath] kubectlPath] client] selected] _.
    apply Forall_bind; [apply await_termination_keeps_releases|]. intros _ _.
    apply Forall_bind; [apply reconcile_namespace_keeps_releases|]. intros _ _.
    apply Forall_bind; [apply revoke_tokens_keeps_releases|]. intros [client' n] _.
    apply Forall_bind; [apply report_keeps_releases|]. intros; constructor.
Qed.

Lemma is_uninstall_false e :
  is_uninstall e = false → ∀ argv, e = Exec argv → argv !! 1 ≠ Some "uninstall".
Proof.
  intros H argv ->. simpl in H. destruct (argv !! 1) as [verb|]; [|done].
  intros [= ->]. done.
Qed.

Lemma plan_continues env client c : ∃ x, result (plan env client c) = Cont x.
Proof.
  unfold plan. destruct client as [cl|]; [|by eauto].
  destruct (0 <? _)%nat; [|by eauto].
  unfold clusterInfo.
  destruct (clustersToDelete cl c) as [|firstCluster rest], (All c);
    try (erewrite result_bind by reflexivity; by eauto);
    (destruct (last _); [|erewrite result_bind by reflexivity; by eauto]);
    unfold lift, mbind, M_bind; simpl;
    destruct (ListClusters cl (listClusters env)) as [ev [clusters err]]; simpl;
    destruct (is_empty _); simpl; eauto.
Qed.

Lemma confirm_consent env c info :
  Force c = true ∨ confirmDelete env = (true, None) →
  result (confirm env c info) = Cont ().
Proof.
  unfold confirm. destruct (Force c); [done|]. intros [|H]; [done|].
  simpl. unfold mbind, M_bind. simpl. by rewrite H.
Qed.

(** A run that gets past the connection stage with the deletion confirmed
    or forced, for one stack and with a path of helm, runs the uninstall of
    that stack's name. *)
Lemma Run_uninstalls env c fuel c' helmPath :
  result (discover env c) = Cont (c', helmPath) →
  (∃ x, result (connect env) = Cont x) →
  Force c' = true ∨ confirmDelete env = (true, None) →
  helmPath ≠ "" → All c' = false →
  Exec [helmPath; "uninstall"; Name c'; "-n"; "buildkite"] ∈ events (Run env c fuel).
Proof.
  intros Hd [[client kubectlPath] Hconn] Hyes Hpath%is_empty_false Hall.
  unfold Run. apply elem_of_bind_l. unfold prepare.
  eapply elem_of_bind_r; [exact Hd|]. cbv beta iota.
  eapply elem_of_bind_r; [exact Hconn|]. cbv beta iota.
  destruct (plan_continues env client c') as [[selected info] Hplan].
  eapply elem_of_bind_r; [exact Hplan|]. cbv beta iota.
  eapply elem_of_bind_r; [by apply confirm_consent|].
  apply elem_of_bind_l.
  unfold uninstall, helm_uninstall. rewrite Hpath, Hall. simpl.
  apply list_elem_of_further, list_elem_of_here.
Qed.

(** C5, as stated, fails. With the listing [[]] no stack is discovered,
    the named stack is not among them, and the run returns [nil]. When
    helm fails to list the releases nothing is discovered either and the
    name is not checked: the run uninstalls the release of that name,
    asks the registry to delete the token of a cluster of the cache, and
    returns [nil]. *)
Lemma named_stack_not_discovered_is_no_error :
  let c := cmd_of "ghost" false true in
  let empty := env_of "[]" [] None (true, None) in
  let failing :=
    listing_fails (env_of "" [rec "A" "alpha" "tok-a" "secret-a"] None (true, None)) in
  ((Name c ∉ discovered empty) ∧ returned (Run empty c 0) = Some None)
  ∧ ((Name c ∉ discovered failing)
     ∧ Exec ["/usr/bin/helm"; "uninstall"; "ghost"; "-n"; "buildkite"]
         ∈ events (Run failing c 3)
     ∧ RegistryDeleteToken "acme" "A" "tok-a" ∈ events (Run failing c 3)
     ∧ returned (Run failing c 3) = Some None).
Proof.
  split_and!; try by vm_compute.
  - vm_compute. by intros ?%elem_of_nil.
  - vm_compute. by intros ?%elem_of_nil.
  - apply (bool_decide_unpack _). by vm_compute.
  - apply (bool_decide_unpack _). by vm_compute.
Qed.

(** C5, amended: a stack is named (no "all" flag). When the agent stack
    is installed, helm listed the releases and the named stack is not
    among them, no command the run executes is an uninstall; if at least
    one stack was discovered, the run returns the error "specified stack
    not found", and its last two events are the message that the stack was
    not found and the display of the releases; if none was discovered, the
    run returns [nil]. When the agent stack is installed and helm is
    missing or fails to list the releases, the name is not checked and the
    discovery hands the command on as it was given: with no path of helm
    the run executes no uninstall, and with a path of helm a run that gets
    past the connection stage, with the deletion confirmed or forced,
    executes the uninstall of the name given, discovered or not. When the
    check for an installed stack fails or finds none, the run executes no
    uninstall and returns the error of the check, or [nil]. *)
Theorem named_stack_not_found env c fuel :
  Name c ≠ "" → All c = false →
  let run := Run env c fuel in
  let helmPath := (lookHelm env).1 in
  (IsAgentStackInstalled env = (true, None) →
   (lookHelm env).2 = None → (helmList env).2 = None →
   Name c ∉ discovered env →
   (∀ argv, Exec argv ∈ events run → argv !! 1 ≠ Some "uninstall")
   ∧ (discovered env ≠ [] →
      returned run = Some (Some "specified stack not found")
      ∧ ∃ before,
          events run
          = before ++ [Print ("❌ No stack named '" +:+ Name c
                                +:+ "' found. Available stacks:");
                       Exec [helmPath; "list"; "-n"; "buildkite"]])
   ∧ (discovered env = [] → returned run = Some None))
  ∧ (IsAgentStackInstalled env = (true, None) →
     (lookHelm env).2 ≠ None ∨ (helmList env).2 ≠ None →
     result (discover env c) = Cont (c, helmPath)
     ∧ (helmPath = "" →
        ∀ argv, Exec argv ∈ events run → argv !! 1 ≠ Some "uninstall")
     ∧ (helmPath ≠ "" →
        (∃ x, result (connect env) = Cont x) →
        Force c = true ∨ confirmDelete env = (true, None) →
        Exec [helmPath; "uninstall"; Name c; "-n"; "buildkite"] ∈ events run))
  ∧ (IsAgentStackInstalled env ≠ (true, None) →
     (∀ argv, Exec argv ∈ events run → argv !! 1 ≠ Some "uninstall")
     ∧ returned run
       = Some match (IsAgentStackInstalled env).2 with
              | Some e => Some (wrap "failed to check if agent stack is installed" e)
              | None => None
              end).
Proof.
  intros Hn Ha run helmPath.
  assert (Hkeeps : ∀ e, result (discover env c) = Return e →
                   ∀ argv, Exec argv ∈ events run → argv !! 1 ≠ Some "uninstall").
  { intros e Hret argv Hin. subst run.
    rewrite (Run_stops_in_discover env c fuel e Hret) in Hin. simpl in Hin.
    pose proof (discover_keeps_releases env c) as Hall.
    rewrite Forall_forall in Hall. by eapply is_uninstall_false; [apply Hall|]. }
  split_and!.
  - intros Hi Hh Hl Hnot.
    destruct (discovered env) as [|name rest] eqn:Hd.
    + subst run. rewrite (Run_no_stacks env c fuel Hi Hh Hl Hd) in *.
      split_and!; [|done|done].
      apply (Hkeeps None). assert (Hdisc := discover_listed env c Hi Hh Hl).
      rewrite Hd in Hdisc. by rewrite Hdisc.
    + assert (Hdisc := discover_listed env c Hi Hh Hl). rewrite Hd in Hdisc.
      assert (Hres : resolve env c (lookHelm env).1 (name :: rest)
                     = mkM [Print ("❌ No stack named '" +:+ Name c
                                     +:+ "' found. Available stacks:");
                            Exec [(lookHelm env).1; "list"; "-n"; "buildkite"]]
                           (Return (Some "specified stack not found"))).
      { unfold resolve. apply is_empty_false in Hn. rewrite Hn, Ha. simpl.
        assert (He := existsb_eqb_false _ _ Hnot). simpl in He. by rewrite He. }
      rewrite Hres in Hdisc.
      assert (HRun : run = mkM (events (discover env c))
                             (Return (Some "specified stack not found"))).
      { subst run. apply Run_stops_in_discover. by rewrite Hdisc. }
      split_and!; [|split|done].
      * apply (Hkeeps (Some "specified stack not found")). by rewrite Hdisc.
      * by rewrite HRun.
      * rewrite HRun, Hdisc. by eexists (discovery_events env).
  - intros Hi Hun.
    assert (Hd : result (discover env c) = Cont (c, helmPath)).
    { rewrite (discover_installed env c Hi).
      erewrite result_bind by reflexivity. by apply list_stacks_unlisted. }
    split_and!; [done| |].
    + intros Hpath argv Hin.
      pose proof (Run_without_helm env c fuel Hpath) as Hall.
      rewrite Forall_forall in Hall. by eapply is_uninstall_false; [apply Hall|].
    + intros Hpath Hconn Hyes. by eapply Run_uninstalls.
  - intros Hno.
    assert (H : (IsAgentStackInstalled env).2 ≠ None
                ∨ (IsAgentStackInstalled env).1 = false).
    { destruct (IsAgentStackInstalled env) as [[|] [e|]]; simpl; auto. }
    pose proof (discover_not_installed env c H) as Hd.
    split; [eapply Hkeeps; by rewrite Hd|].
    subst run. erewrite Run_stops_in_discover by by rewrite Hd. done.
Qed.

Lemma named_stack_not_found_witness :
  let c := cmd_of "ghost" false true in
  let listed := env_of two_stacks [] None (true, None) in
  let failing := listing_fails (env_of "" [] None (true, None)) in
  returned (Run listed c 0) = Some (Some "specified stack not found")
  ∧ Exec ["/usr/bin/helm"; "uninstall"; "ghost"; "-n"; "buildkite"]
      ∈ events (Run failing c 3).
Proof.
  intros c listed failing. split.
  - refine (proj1 (proj1 (proj2 (proj1 (named_stack_not_found listed c 0 _ eq_refl)
                                   eq_refl eq_refl eq_refl _)) _)).
    + discriminate.
    + vm_compute. intros H. repeat (apply elem_of_cons in H as [H|H]; [discriminate|]).
      by apply elem_of_nil in H.
    + by vm_compute.
  - refine (proj2 (proj2 (proj1 (proj2 (named_stack_not_found failing c 3 _ eq_refl))
                            eq_refl (or_intror _))) _ _ (or_introl eq_refl)).
    + discriminate.
    + discriminate.
    + discriminate.
    + by eexists.
Defined.

(** C6, as stated, fails: two stacks are discovered, no name and no "all"
    flag are given, and under the force flag the run returns an error that
    asks for a name. *)
Lemma forced_run_without_name_fails :
  let env := env_of two_stacks [] None (true, None) in
  let c := cmd_of "" false true in
  discovered env = ["prod-agents"; "dev-agents"]
  ∧ returned (Run env c 0)
    = Some (Some "multiple stacks found but no specific stack name provided. Use --name to specify or --all to delete all").
Proof. by vm_compute. Qed.

(** C6, amended: with an empty name, no "all" flag and more than one stack
    discovered, the run without the force flag asks for a selection among
    the stacks and "Delete all stacks", and the target is what was
    selected: every stack for the added option, the selected stack
    otherwise; it fails here only if the selection itself is cancelled.
    Under the force flag the run returns an error that asks for a name or
    the "all" flag. *)
Theorem empty_name_resolution env c fuel :
  IsAgentStackInstalled env = (true, None) →
  (lookHelm env).2 = None →
  (helmList env).2 = None →
  Name c = "" → All c = false →
  1 < length (discovered env) →
  (Force c = true →
   returned (Run env c fuel)
   = Some (Some "multiple stacks found but no specific stack name provided. Use --name to specify or --all to delete all"))
  ∧ (Force c = false →
     AskSelect "Select stack to delete:" (discovered env ++ ["Delete all stacks"])
       ∈ events (discover env c)
     ∧ (∀ e, (selectStack env).2 = Some e →
          returned (Run env c fuel) = Some (Some (wrap "selection cancelled" e)))
     ∧ ((selectStack env).2 = None →
        ((selectStack env).1 = length (discovered env) →
         result (discover env c) = Cont (with_target c "" true, (lookHelm env).1))
        ∧ (∀ name, discovered env !! (selectStack env).1 = Some name →
             result (discover env c)
             = Cont (with_target c name false, (lookHelm env).1)))).
Proof.
  intros Hi Hh Hl Hn Ha Hlen.
  assert (Hdisc := discover_listed env c Hi Hh Hl).
  destruct (discovered env) as [|n1 [|n2 rest]] eqn:Hd; simpl in Hlen; [lia..|].
  unfold resolve in Hdisc. rewrite Hn, Ha in Hdisc. simpl in Hdisc.
  split.
  - intros Hf. rewrite Hf in Hdisc. simpl in Hdisc.
    erewrite Run_stops_in_discover; by rewrite Hdisc.
  - intros Hf. rewrite Hf in Hdisc. simpl in Hdisc. split_and!.
    + rewrite Hdisc. unfold mbind, M_bind. simpl.
      destruct (selectStack env).2; simpl.
      * apply list_elem_of_further, elem_of_app. right.
        do 2 apply list_elem_of_further. apply list_elem_of_here.
      * destruct (_ =? _)%nat; simpl;
          [|destruct (_ !! _); simpl];
          apply list_elem_of_further, elem_of_app; right;
          do 2 apply list_elem_of_further; apply list_elem_of_here.
    + intros e He. rewrite He in Hdisc.
      erewrite Run_stops_in_discover; by rewrite Hdisc.
    + intros Hs. rewrite Hs in Hdisc. split.
      * intros Hall. rewrite Hall in Hdisc. rewrite Hdisc.
        unfold mbind, M_bind. simpl. by rewrite Nat.eqb_refl.
      * intros name Hname.
        assert (Hlt : (selectStack env).1 < length (n1 :: n2 :: rest))
          by by eapply lookup_lt_Some.
        rewrite Hdisc. unfold mbind, M_bind. simpl.
        destruct (Nat.eqb_spec (selectStack env).1 (S (S (length rest))))
          as [Heq|_]; [simpl in Hlt; lia|].
        simpl. by rewrite Hname.
Qed.

Lemma empty_name_resolution_witness :
  let env := env_of two_stacks [] None (true, None) in
  let c := cmd_of "" false false in
  result (discover env c) = Cont (with_target c "prod-agents" false, "/usr/bin/helm").
Proof.
  intros env c.
  refine (proj2 (proj2 (proj2 (proj2 (empty_name_resolution env c 0
            eq_refl eq_refl eq_refl eq_refl eq_refl _) eq_refl)) eq_refl)
            "prod-agents" _).
  - vm_compute. lia.
  - by vm_compute.
Defined.

Lemma first_index_filter p (l : list RecentCluster) :
  match first_index p l with Some (_, r) => [r] | None => [] end
  = take 1 (List.filter p l).
Proof.
  unfold first_index. induction l as [|x l IH]; [done|].
  cbn. destruct (p x) eqn:E.
  - rewrite decide_True by done. simpl. by rewrite take_0.
  - rewrite decide_False by congruence. rewrite <- IH.
    by destruct (list_find _ l) as [[i r]|].
Qed.

(** When no name matches, the selection is the first record of the list
    that holds a token, the oldest one, if there is any. *)
Lemma clustersToDelete_fallback cl cfg c :
  config cl = Some cfg → All c = false →
  (FindClusterByName cl (Name c)).1 = [] →
  clustersToDelete cl c = take 1 (List.filter has_token (RecentClusters cfg)).
Proof.
  intros Hc Ha Hm. unfold clustersToDelete.
  unfold FindClusterByName in *. unfold GetRecentClusters. rewrite Hc, Ha in *.
  simpl in Hm. rewrite Hm. simpl.
  destruct (RecentClusters cfg) as [|r l] eqn:E; [done|].
  rewrite <- first_index_filter. simpl length. cbn [Nat.ltb Nat.leb andb].
  by destruct (first_index has_token (r :: l)) as [[i x]|].
Qed.

(** C8: the code does not do what the claim says. The cache holds two
    records with tokens, [A] older than [B]; the named stack matches
    neither name; the record selected for revocation is [A], the one
    nearest the head, while the most recently used one is [B]. *)
Theorem fallback_selects_oldest_token_holder :
  let a := rec "A" "alpha" "tok-a" "secret-a" in
  let b := rec "B" "beta" "tok-b" "secret-b" in
  let cl := client_of [a; b] in
  let c := cmd_of "dev-agents" false true in
  (FindClusterByName cl (Name c)).1 = []
  ∧ last (List.filter has_token (GetRecentClusters cl)) = Some b
  ∧ clustersToDelete cl c = [a].
Proof. by vm_compute. Qed.

(** *** The wait and what follows it *)

Lemma wait_loop_times_out env c kubectlPath n :
  ∀ fuel k,
    (∀ j, k ≤ j < k + n → still_waiting env c j = true) →
    (wrap64 (Timeout c * second) < elapsed env (k + n))%Z →
    n < fuel →
    ∃ evs, wait_loop env c kubectlPath (wrap64 (Timeout c * second)) fuel k
           = mkM (evs ++ [Print timedOut]) (Cont ()).
Proof.
  induction n as [|n IH]; intros fuel k Hw Ht Hf;
    (destruct fuel as [|fuel]; [lia|]); simpl.
  - rewrite Nat.add_0_r in Ht. apply Z.ltb_lt in Ht. rewrite Ht.
    by exists [].
  - assert (Hk : still_waiting env c k = true) by (apply Hw; lia).
    unfold still_waiting in Hk.
    apply andb_true_iff in Hk as [[Hle Herr]%andb_true_iff Hpods].
    apply Z.leb_le in Hle. apply bool_decide_eq_true in Herr.
    apply negb_true_iff in Hpods.
    destruct (Z.ltb_spec (wrap64 (Timeout c * second)) (elapsed env k)); [lia|].
    rewrite Herr.
    destruct (String.length (strings.TrimSpace (getPods env k).1) =? 0)%nat eqn:El.
    { apply Nat.eqb_eq in El.
      destruct (strings.TrimSpace (getPods env k).1); [|done].
      by vm_compute in Hpods. }
    rewrite Hpods.
    destruct (IH fuel (S k)) as [evs Hevs].
    + intros j Hj. apply Hw. lia.
    + by replace (S k + n) with (k + S n) by lia.
    + lia.
    + unfold mbind, M_bind. simpl. rewrite Hevs. simpl.
      by eexists (_ :: _ :: evs).
Qed.

Lemma times_out_at_spec env c n :
  times_out_at env c n = true →
  (∀ j, 0 ≤ j < 0 + n → still_waiting env c j = true)
  ∧ (wrap64 (Timeout c * second) < elapsed env (0 + n))%Z.
Proof.
  unfold times_out_at. intros [Hall Ht]%andb_true_iff. split.
  - intros j Hj. eapply forallb_forall in Hall; [done|]. apply in_seq. lia.
  - by apply Z.ltb_lt.
Qed.

Lemma await_termination_times_out env c kubectlPath fuel n :
  NoWait c = false → times_out_at env c n = true → n < fuel →
  ∃ evs, await_termination env c kubectlPath fuel
         = mkM (evs ++ [Print timedOut]) (Cont ()).
Proof.
  intros Hnw [Hw Ht]%times_out_at_spec Hf. unfold await_termination. rewrite Hnw.
  destruct (wait_loop_times_out env c kubectlPath n fuel 0 Hw Ht Hf) as [evs Hevs].
  unfold mbind, M_bind. simpl. rewrite Hevs. simpl.
  by eexists (_ :: evs).
Qed.

Lemma RevokeToken_continues env cl cluster :
  ∃ x, result (RevokeToken env cl cluster) = Cont x.
Proof.
  unfold RevokeToken, mbind, M_bind. simpl.
  destruct (DeleteToken _ _ _ _).2; simpl; [by eauto|].
  destruct (RemoveTokenFromCluster _ _ _ _) as [[ev cl'] [e|]]; simpl; eauto.
Qed.

Lemma revoke_all_continues env clusters :
  ∀ cl k, ∃ x, result (revoke_all env cl clusters k) = Cont x.
Proof.
  induction clusters as [|cluster rest IH]; intros cl k; simpl; [by eauto|].
  destruct (has_token cluster); [|done].
  destruct (RevokeToken_continues env cl cluster) as [[cl' err] Hx].
  erewrite bind_Cont by done. simpl. apply IH.
Qed.

Lemma revoke_tokens_continues env client selected :
  ∃ x, result (revoke_tokens env client selected) = Cont x.
Proof.
  unfold revoke_tokens. destruct client as [cl|]; [|by eauto].
  destruct (0 <? length selected)%nat; [|by eauto].
  destruct (revoke_all_continues env selected cl 0) as [[cl' k] Hx].
  unfold mbind at 1, M_bind at 1. simpl.
  erewrite bind_Cont by done. simpl. eauto.
Qed.

Lemma report_continues c k : result (report c k) = Cont ().
Proof.
  unfold report. destruct (All c), (0 <? k)%nat; done.
Qed.

Lemma reconcile_namespace_result env c helmPath kubectlPath :
  let ns := reconcile_namespace env c helmPath kubectlPath in
  (All c = false ∨ Force c = true ∨ (confirmNamespace env).2 = None →
   result ns = Cont ())
  ∧ (result ns = Cont ()
     ∨ ∃ e, result ns = Return (Some (wrap "prompt cancelled" e))
            ∧ (confirmNamespace env).2 = Some e
            ∧ All c = true ∧ Force c = false).
Proof.
  unfold reconcile_namespace.
  destruct (All c); simpl; [|by auto].
  destruct (is_empty helmPath); simpl; [by auto|].
  destruct (bool_decide _ && _ && _); simpl; [by auto|].
  unfold mbind, M_bind. simpl.
  destruct (Force c); simpl.
  - destruct (deleteNamespace env); simpl; auto.
  - destruct (confirmNamespace env) as [b [e|]]; simpl.
    + split; [intros [|[|]]; done|]. right. by exists e.
    + destruct b; simpl; [destruct (deleteNamespace env)|]; simpl; auto.
Qed.

(** C7, as stated, fails: every stack is deleted without the force flag,
    the wait times out at the third poll, no release is left, and the
    confirmation for the namespace is interrupted; the run returns that
    error, and the registry is never asked to delete a token although the
    cache holds one. *)
Lemma timeout_then_cancelled_prompt_fails :
  let cache := [rec "A" "alpha" "tok-a" "secret-a"] in
  let env := env_of two_stacks cache None (false, Some "interrupt") in
  let c := cmd_of "" true false in
  times_out_at env c 2 = true
  ∧ Print timedOut ∈ events (Run env c 3)
  ∧ returned (Run env c 3) = Some (Some "prompt cancelled: interrupt")
  ∧ RegistryDeleteToken "acme" "A" "tok-a" ∉ events (Run env c 3).
Proof.
  split_and!; [by vm_compute| | by vm_compute|].
  - apply (bool_decide_unpack _). by vm_compute.
  - apply (bool_decide_unpack _). by vm_compute.
Qed.

(** C7, amended: when the wait times out, the timeout is printed as a
    warning and the run goes on with the namespace stage. If that stage
    does not return, the token stage follows and the run returns [nil]; it
    does not return when something other than every stack is deleted, or
    under the force flag, or when its confirmation is answered. The only
    return of the namespace stage is the error of a cancelled
    confirmation, which is then the result of the run. *)
Theorem timeout_is_a_warning env c fuel n c' helmPath kubectlPath client selected :
  result (prepare env c) = Cont (c', helmPath, kubectlPath, client, selected) →
  NoWait c' = false →
  times_out_at env c' n = true →
  n < fuel →
  let ns := reconcile_namespace env c' helmPath kubectlPath in
  let tokens := revoke_tokens env client selected in
  ∃ before,
    (result ns = Cont () →
     returned (Run env c fuel) = Some None
     ∧ ∃ closing,
         events (Run env c fuel)
         = before ++ [Print timedOut] ++ events ns ++ events tokens ++ closing)
    ∧ (∀ e, result ns = Return e →
         Run env c fuel = mkM (before ++ [Print timedOut] ++ events ns) (Return e))
    ∧ (All c' = false ∨ Force c' = true ∨ (confirmNamespace env).2 = None →
       result ns = Cont ())
    ∧ (result ns = Cont ()
       ∨ ∃ e, result ns = Return (Some (wrap "prompt cancelled" e))
              ∧ (confirmNamespace env).2 = Some e).
Proof.
  intros Hp Hnw Ht Hf ns tokens.
  destruct (await_termination_times_out env c' kubectlPath fuel n Hnw Ht Hf)
    as [evs Hevs].
  destruct (reconcile_namespace_result env c' helmPath kubectlPath) as [Hns1 Hns2].
  fold ns in Hns1, Hns2.
  exists (events (prepare env c) ++ evs).
  assert (Hawait : result (await_termination env c' kubectlPath fuel) = Cont ())
    by by rewrite Hevs.
  assert (HRun : Run env c fuel
                 = mkM (events (prepare env c) ++ (evs ++ [Print timedOut])
                          ++ events (ns ≫= λ _, tokens ≫= λ '(client', k),
                                       report c' k ≫= λ _, mret client'))
                       (result (ns ≫= λ _, tokens ≫= λ '(client', k),
                                  report c' k ≫= λ _, mret client'))).
  { unfold Run. erewrite bind_Cont by exact Hp. unfold finish.
    erewrite (bind_Cont (await_termination _ _ _ _)) by exact Hawait.
    by rewrite Hevs. }
  split_and!.
  - intros Hns.
    destruct (revoke_tokens_continues env client selected) as [[client' k] Htok].
    fold tokens in Htok.
    rewrite HRun. erewrite (bind_Cont ns) by exact Hns.
    erewrite (bind_Cont tokens) by exact Htok. cbv beta iota.
    erewrite (bind_Cont (report c' k)) by apply report_continues.
    split; [done|]. simpl.
    exists (events (report c' k) ++ []). by rewrite <- !app_assoc.
  - intros e Hns. rewrite HRun. erewrite (bind_Return ns) by exact Hns.
    simpl. by rewrite <- !app_assoc.
  - done.
  - destruct Hns2 as [|(e & ? & ? & _)]; [by left|right; by exists e].
Qed.

Lemma timeout_is_a_warning_witness :
  let cache := [rec "A" "alpha" "tok-a" "secret-a"] in
  let env := env_of two_stacks cache None (true, None) in
  let c := cmd_of "dev-agents" false true in
  returned (Run env c 3) = Some None.
Proof.
  intros cache env c.
  destruct (timeout_is_a_warning env c 3 2 c "/usr/bin/helm" "/usr/bin/kubectl"
              (Some (client_of cache)) cache eq_refl eq_refl eq_refl
              (le_n 3)) as (before & Hok & _ & Hns & _).
  apply Hok, Hns. by left.
Defined.

End Delete.

(** * Further properties of the code *)

(** ** The cache and the token calls of [internal/api] *)

Lemma first_index_holds_None clusterID tokenID l :
  first_index (holds_token_of clusterID tokenID) l = None ↔
  ∀ r, r ∈ l → ¬ (UUID r = clusterID ∧ TokenID r = tokenID).
Proof.
  rewrite first_index_None. split; intros H r Hr; specialize (H r Hr);
    by rewrite ?holds_token_of_true in *.
Qed.

Lemma with_RecentClusters_same cfg : with_RecentClusters cfg (RecentClusters cfg) = cfg.
Proof. by destruct cfg. Qed.

Lemma with_config_same c cfg : config c = Some cfg → with_config c cfg = c.
Proof. destruct c as [k s]. simpl. by intros ->. Qed.

(** X1: [RemoveTokenFromCluster] clears a token only when a record has
    both the uuid and the token ID: when none has, it returns the
    "not found" error, does not save and leaves the client as it was. *)
Theorem remove_token_needs_both c cfg clusterID tokenID save :
  config c = Some cfg →
  (∀ r, r ∈ RecentClusters cfg → ¬ (UUID r = clusterID ∧ TokenID r = tokenID)) →
  RemoveTokenFromCluster c clusterID tokenID save
  = ([], c, Some ("token " +:+ tokenID +:+ " not found for cluster " +:+ clusterID)).
Proof.
  intros Hc Hnone%first_index_holds_None. unfold RemoveTokenFromCluster.
  by rewrite Hc, Hnone.
Qed.

Lemma remove_token_needs_both_witness :
  RemoveTokenFromCluster (client_of [rec "A" "alpha" "tok-2" "s"]) "A" "tok-1" None
  = ([], client_of [rec "A" "alpha" "tok-2" "s"],
     Some "token tok-1 not found for cluster A").
Proof.
  apply (remove_token_needs_both _ (cfg_of [rec "A" "alpha" "tok-2" "s"]));
    [reflexivity|].
  intros r ->%list_elem_of_singleton [_ Ht]. discriminate Ht.
Defined.

(** X2: [RemoveTokenFromCluster] keeps the length of the cache and the
    uuid, name and organisation of every record, and leaves every record
    that does not have both the uuid and the token ID as it is, whatever
    the save answers. *)
Theorem remove_token_frame c clusterID tokenID save :
  let before := GetRecentClusters c in
  let after := GetRecentClusters (RemoveTokenFromCluster c clusterID tokenID save).1.2 in
  length after = length before
  ∧ UUID <$> after = UUID <$> before
  ∧ Name <$> after = Name <$> before
  ∧ OrgSlug <$> after = OrgSlug <$> before
  ∧ ∀ j r, before !! j = Some r →
           ¬ (UUID r = clusterID ∧ TokenID r = tokenID) → after !! j = Some r.
Proof.
  unfold RemoveTokenFromCluster, GetRecentClusters.
  destruct (config c) as [cfg|] eqn:Hc; simpl; [|by rewrite Hc].
  destruct (first_index _ _) as [[i r0]|] eqn:Hf; simpl; [|by rewrite Hc].
  apply first_index_Some in Hf as (Hi & Hm%holds_token_of_true & _).
  split_and!.
  - by rewrite length_insert.
  - rewrite list_fmap_insert. apply list_insert_id. by rewrite list_lookup_fmap, Hi.
  - rewrite list_fmap_insert. apply list_insert_id. by rewrite list_lookup_fmap, Hi.
  - rewrite list_fmap_insert. apply list_insert_id. by rewrite list_lookup_fmap, Hi.
  - intros j r Hj Hr. destruct (decide (i = j)) as [->|Hne].
    + destruct Hr. congruence.
    + by rewrite list_lookup_insert_ne.
Qed.

(** X3: on a cache with distinct uuids, a second [RemoveTokenFromCluster]
    for the same cluster and the same non-empty token ID always reports
    "not found" and changes nothing. *)
Theorem remove_token_twice c cfg clusterID tokenID save1 save2 :
  config c = Some cfg →
  NoDup (UUID <$> RecentClusters cfg) →
  tokenID ≠ "" →
  let c1 := (RemoveTokenFromCluster c clusterID tokenID save1).1.2 in
  RemoveTokenFromCluster c1 clusterID tokenID save2
  = ([], c1, Some ("token " +:+ tokenID +:+ " not found for cluster " +:+ clusterID)).
Proof.
  intros Hc Hnd Ht c1.
  destruct (first_index (holds_token_of clusterID tokenID) (RecentClusters cfg))
    as [[i r0]|] eqn:Hf.
  - assert (Hc1 : c1 = with_config c (with_RecentClusters cfg
                         (<[i:=with_token r0 "" ""]> (RecentClusters cfg)))).
    { subst c1. unfold RemoveTokenFromCluster. by rewrite Hc, Hf. }
    rewrite Hc1.
    apply first_index_Some in Hf as (Hi & [Hu Htok]%holds_token_of_true & _).
    eapply remove_token_needs_both; [done|]. simpl.
    intros r [j Hj]%list_elem_of_lookup [Hru Hrt].
    destruct (decide (i = j)) as [->|Hne].
    + rewrite list_lookup_insert_eq in Hj by by eapply lookup_lt_Some.
      injection Hj as <-. simpl in Hrt. congruence.
    + rewrite list_lookup_insert_ne in Hj by done.
      destruct Hne. eapply NoDup_lookup; [exact Hnd| |].
      * by rewrite list_lookup_fmap, Hi.
      * rewrite list_lookup_fmap, Hj. simpl. congruence.
  - assert (Hc1 : c1 = c).
    { subst c1. unfold RemoveTokenFromCluster. by rewrite Hc, Hf. }
    rewrite Hc1. eapply remove_token_needs_both; [done|].
    by apply first_index_holds_None.
Qed.

Lemma remove_token_twice_witness :
  let c := client_of [rec "A" "alpha" "tok-1" "s"] in
  let c1 := (RemoveTokenFromCluster c "A" "tok-1" None).1.2 in
  RemoveTokenFromCluster c1 "A" "tok-1" None
  = ([], c1, Some "token tok-1 not found for cluster A").
Proof.
  intros c.
  apply (remove_token_twice c (cfg_of [rec "A" "alpha" "tok-1" "s"]) "A" "tok-1" None None);
    [reflexivity | by apply (bool_decide_unpack _) | discriminate].
Defined.

(** X4: an upsert of a uuid that is in the cache changes no record of
    another uuid, and the cache then has a record of that uuid with the
    name given and the organisation of the configuration. *)
Theorem upsert_present_frame c cfg cluster save :
  config c = Some cfg →
  ID cluster ∈ UUID <$> RecentClusters cfg →
  let after := GetRecentClusters (AddRecentCluster c cluster save).1.2 in
  (∀ j r, RecentClusters cfg !! j = Some r → UUID r ≠ ID cluster → after !! j = Some r)
  ∧ ∃ r', r' ∈ after ∧ UUID r' = ID cluster ∧ Name r' = clName cluster
          ∧ OrgSlug r' = bkOrgSlug (Buildkite cfg).
Proof.
  intros Hc Hin after. subst after.
  destruct (first_index_uuid_present _ _ Hin) as (i & old & Hf).
  rewrite (AddRecentCluster_present _ _ _ _ _ _ Hc Hf).
  apply first_index_Some in Hf as (Hi & Hu%has_uuid_true & _). split.
  - intros j r Hj Hr. rewrite list_lookup_insert_ne; [done|]. intros ->. congruence.
  - exists (replacement cfg cluster old). split_and!; try done.
    apply list_elem_of_lookup. exists i. apply list_lookup_insert_eq.
    by eapply lookup_lt_Some.
Qed.

Lemma upsert_present_frame_witness :
  let c := client_of [rec "A" "alpha" "" ""; rec "B" "beta" "tok-b" "s"] in
  GetRecentClusters (AddRecentCluster c (cluster_of "A" "renamed") None).1.2 !! 1
  = Some (rec "B" "beta" "tok-b" "s").
Proof.
  intros c.
  refine (proj1 (upsert_present_frame c (cfg_of _) (cluster_of "A" "renamed") None
                   eq_refl _) 1 (rec "B" "beta" "tok-b" "s") eq_refl _).
  - apply list_elem_of_here.
  - discriminate.
Defined.

Lemma prefix_refl s : String.prefix s s = true.
Proof. induction s as [|a s IH]; simpl; [done|]. by destruct (ascii_dec a a). Qed.

Lemma Contains_refl s : strings.Contains s s = true.
Proof. destruct s; [done|]. cbn [strings.Contains]. by rewrite prefix_refl. Qed.

Lemma filter_sublist {A} (p : A → bool) (l : list A) : List.filter p l `sublist_of` l.
Proof.
  induction l as [|x l IH]; simpl; [done|].
  destruct (p x); by constructor.
Qed.

(** X5: [FindClusterByName] returns the records of the cache, in cache
    order, whose lower-cased name contains the lower-cased query, and only
    those; a record whose name equals the query up to case is among them. *)
Theorem find_by_name_exact cfg s name :
  let found := (FindClusterByName {| config := Some cfg; client := s |} name).1 in
  found `sublist_of` RecentClusters cfg
  ∧ (∀ r, r ∈ found ↔
          r ∈ RecentClusters cfg
          ∧ strings.Contains (strings.ToLower (Name r)) (strings.ToLower name) = true)
  ∧ (∀ r, r ∈ RecentClusters cfg →
          strings.ToLower (Name r) = strings.ToLower name → r ∈ found).
Proof.
  simpl. split_and!.
  - apply filter_sublist.
  - intros r. rewrite !list_elem_of_In, filter_In. done.
  - intros r Hr Heq. rewrite list_elem_of_In, filter_In. split.
    + by apply list_elem_of_In.
    + unfold name_matches. rewrite Heq. apply Contains_refl.
Qed.

(** X6: [CreateToken] touches the configuration only after the registry:
    whenever it saves, the registry call succeeded and is the first event,
    made with the description "kez-" followed by the version; when the
    registry call fails, the client is left as it was and the result is the
    zero token with an error. *)
Theorem create_token_remote_first c clusterID version reply save :
  let out := CreateToken c clusterID version reply save in
  (∀ cfg', SaveConfig cfg' ∈ out.1.1 →
     reply.2 = None
     ∧ ∃ org rest,
         out.1.1 = RegistryCreateToken org clusterID ("kez-" +:+ version) :: rest)
  ∧ (reply.2 ≠ None → out.1.2 = c ∧ out.2.1 = noToken ∧ out.2.2 ≠ None).
Proof.
  unfold CreateToken, issue, bk.CreateToken, bk.create.
  destruct (client c) as [k|], (config c) as [cfg|];
    try (simpl; split; [by intros cfg' ?%elem_of_nil|done]).
  destruct reply as [token [e|]]; simpl.
  - split; [|done]. intros cfg' Hin.
    apply elem_of_cons in Hin as [Hin|Hin%elem_of_nil]; done.
  - destruct (record_token c cfg clusterID token save) as [ev' c'] eqn:Hr. simpl.
    split; [|done]. intros cfg' _. split; [done|]. by eexists _, _.
Qed.

(** X7: issuing a token for a cluster and then clearing that token gives
    back the client one started from, when the records of that cluster
    held no token fields before (and the client is initialised). *)
Theorem issue_then_clear c k cfg clusterID version token save1 save2 :
  client c = Some k → config c = Some cfg →
  (∀ r, r ∈ RecentClusters cfg → UUID r = clusterID →
        TokenID r = "" ∧ TokenVal r = "") →
  let c1 := (CreateToken c clusterID version (token, None) save1).1.2 in
  (RemoveTokenFromCluster c1 clusterID (tkID token) save2).1.2 = c.
Proof.
  intros Hk Hc Hempty c1.
  assert (Hc1 : c1 = (record_token c cfg clusterID token save1).2).
  { subst c1. unfold CreateToken. by erewrite issue_found. }
  rewrite Hc1. clear Hc1 c1. unfold record_token.
  destruct (first_index (has_uuid clusterID) (RecentClusters cfg)) as [[i r]|] eqn:Hf.
  - simpl. apply first_index_Some in Hf as (Hi & Hu%has_uuid_true & Hfirst).
    assert (Hlt : i < length (RecentClusters cfg)) by by eapply lookup_lt_Some.
    destruct (Hempty r) as [Ht Hv]; [by eapply list_elem_of_lookup_2|done|].
    unfold RemoveTokenFromCluster. simpl.
    assert (Hf2 : first_index (holds_token_of clusterID (tkID token))
                    (<[i:=with_token r (tkID token) (tkToken token)]> (RecentClusters cfg))
                  = Some (i, with_token r (tkID token) (tkToken token))).
    { apply first_index_Some. split_and!.
      - by apply list_lookup_insert_eq.
      - by apply holds_token_of_true.
      - intros j y Hj Hji [Hyu _]%holds_token_of_true.
        rewrite list_lookup_insert_ne in Hj by lia.
        eapply Hfirst; [done..|]. by apply has_uuid_true. }
    rewrite Hf2. simpl. unfold with_config, with_RecentClusters. simpl.
    rewrite list_insert_insert_eq.
    replace (with_token (with_token r (tkID token) (tkToken token)) "" "") with r.
    + rewrite list_insert_id by done. destruct c as [cc kk], cfg. simpl in *. congruence.
    + destruct r. simpl in *. unfold with_token. simpl. congruence.
  - simpl. apply first_index_uuid_None in Hf.
    rewrite remove_token_needs_both with (cfg := cfg); [done|done|].
    intros r Hr [Hu _]. apply Hf. rewrite <- Hu. by apply list_elem_of_fmap_2.
Qed.

Lemma issue_then_clear_witness :
  let c := client_of [rec "A" "alpha" "" ""; rec "B" "beta" "tok-b" "s"] in
  let token := {| tkID := "tok-9"; tkToken := "secret" |} in
  let c1 := (CreateToken c "A" "1.0" (token, None) None).1.2 in
  (RemoveTokenFromCluster c1 "A" "tok-9" None).1.2 = c.
Proof.
  intros c token.
  apply (issue_then_clear c sdk (cfg_of _) "A" "1.0" token None None eq_refl eq_refl).
  intros r Hr Hu.
  apply elem_of_cons in Hr as [->|Hr]; [done|].
  apply list_elem_of_singleton in Hr as ->. discriminate Hu.
Defined.

(** X8: a token issued for a cluster of the cache survives a later upsert
    of that cluster: the cache still has a record of the cluster with the
    token's ID and value (the ID not being empty). *)
Theorem issue_then_upsert c k cfg cluster version token save1 save2 :
  client c = Some k → config c = Some cfg →
  ID cluster ∈ UUID <$> RecentClusters cfg →
  tkID token ≠ "" →
  let c1 := (CreateToken c (ID cluster) version (token, None) save1).1.2 in
  ∃ r, r ∈ GetRecentClusters (AddRecentCluster c1 cluster save2).1.2
       ∧ UUID r = ID cluster ∧ TokenID r = tkID token ∧ TokenVal r = tkToken token.
Proof.
  intros Hk Hc Hin Ht c1.
  assert (Hc1 : c1 = (record_token c cfg (ID cluster) token save1).2).
  { subst c1. unfold CreateToken. by erewrite issue_found. }
  rewrite Hc1. clear Hc1 c1. unfold record_token.
  destruct (first_index_uuid_present _ _ Hin) as (i & r & Hf). rewrite Hf. simpl.
  apply first_index_Some in Hf as (Hi & Hu%has_uuid_true & Hfirst).
  assert (Hlt : i < length (RecentClusters cfg)) by by eapply lookup_lt_Some.
  set (l1 := <[i:=with_token r (tkID token) (tkToken token)]> (RecentClusters cfg)).
  assert (Hf1 : first_index (has_uuid (ID cluster)) l1
                = Some (i, with_token r (tkID token) (tkToken token))).
  { apply first_index_Some. split_and!.
    - by apply list_lookup_insert_eq.
    - by apply has_uuid_true.
    - intros j y Hj Hji. unfold l1 in Hj. rewrite list_lookup_insert_ne in Hj by lia.
      by eapply Hfirst. }
  rewrite (AddRecentCluster_present (with_config c (with_RecentClusters cfg l1))
             (with_RecentClusters cfg l1) cluster save2 i _ eq_refl Hf1).
  exists (replacement (with_RecentClusters cfg l1) cluster
            (with_token r (tkID token) (tkToken token))).
  split_and!.
  - apply list_elem_of_lookup. exists i. apply list_lookup_insert_eq.
    simpl. unfold l1. by rewrite length_insert.
  - done.
  - done.
  - simpl. by destruct (String.eqb_spec (tkID token) "").
Qed.

Lemma issue_then_upsert_witness :
  let c := client_of [rec "A" "alpha" "" ""] in
  let token := {| tkID := "tok-9"; tkToken := "secret" |} in
  let c1 := (CreateToken c "A" "1.0" (token, None) None).1.2 in
  ∃ r, r ∈ GetRecentClusters (AddRecentCluster c1 (cluster_of "A" "alpha") None).1.2
       ∧ UUID r = "A" ∧ TokenID r = "tok-9" ∧ TokenVal r = "secret".
Proof.
  intros c token.
  apply (issue_then_upsert c sdk (cfg_of _) (cluster_of "A" "alpha") "1.0" token None None
           eq_refl eq_refl); [apply list_elem_of_here | discriminate].
Defined.

(** ** [internal/k8s] *)

Lemma count_pod_fold lines :
  ∀ counts,
    counts.1 ≤ counts.2 →
    let r := foldl k8s.count_pod counts lines in
    r.1 ≤ r.2 ∧ r.2 ≤ counts.2 + length lines
    ∧ r.2 = counts.2
            + length (List.filter
                        (λ line, negb (String.length (strings.TrimSpace line) =? 0)%nat)
                        lines).
Proof.
  induction lines as [|line lines IH]; intros [running total] Hle; simpl in *.
  - lia.
  - destruct (String.length (strings.TrimSpace line) =? 0)%nat; simpl.
    + destruct (IH (running, total) Hle) as (? & ? & ?). simpl in *. lia.
    + destruct (strings.Contains line "Running").
      * destruct (IH (S running, S total)) as (? & ? & ?); simpl in *; lia.
      * destruct (IH (running, S total)) as (? & ? & ?); simpl in *; lia.
Qed.

(** X9: [GetAgentPodsStatus] never reports more running pods than pods,
    nor more pods than lines of output; the total is the number of lines
    that are not blank; with an error both counts are zero. *)
Theorem pods_status_counts (look pods : string * error) :
  let '(running, total, err) := (k8s.GetAgentPodsStatus look pods).2 in
  running ≤ total
  ∧ total ≤ length (strings.Split pods.1 LF)
  ∧ (err ≠ None → running = 0 ∧ total = 0)
  ∧ (err = None →
     total = length (List.filter
                       (λ line, negb (String.length (strings.TrimSpace line) =? 0)%nat)
                       (strings.Split pods.1 LF))).
Proof.
  unfold k8s.GetAgentPodsStatus.
  destruct look.2; simpl; [split_and!; (done || lia)|].
  destruct pods.2; simpl; [split_and!; (done || lia)|].
  destruct (count_pod_fold (strings.Split pods.1 LF) (0, 0)) as (H1 & H2 & H3);
    [simpl; lia|].
  destruct (foldl _ _ _) as [running total]. simpl in *.
  split_and!; try done.
Qed.

(** X10: once kubectl is found and the namespace query succeeds,
    [IsAgentStackInstalled] returns no error; a blank answer means "not
    installed" and the pods are not queried; with the namespace there, a
    failing pod query means "installed", and a successful one means
    "installed" exactly when its output is not blank. *)
Theorem stack_installed_cases (look ns pods : string * error) :
  look.2 = None → ns.2 = None →
  let out := k8s.IsAgentStackInstalled look ns pods in
  out.2.2 = None
  ∧ (strings.TrimSpace ns.1 = "" →
     out.2.1 = false ∧ Exec (k8s.agent_pods look.1) ∉ out.1)
  ∧ (strings.TrimSpace ns.1 ≠ "" →
     (pods.2 ≠ None → out.2.1 = true)
     ∧ (pods.2 = None → (out.2.1 = true ↔ strings.TrimSpace pods.1 ≠ ""))).
Proof.
  intros Hl Hn. unfold k8s.IsAgentStackInstalled. rewrite Hl, Hn.
  destruct (strings.TrimSpace ns.1) as [|a t] eqn:Ens; simpl.
  - split_and!; [done| |done]. intros _. split; [done|].
    intros Hin. apply elem_of_cons in Hin as [Hin|Hin%elem_of_nil]; [|done].
    unfold k8s.agent_pods in Hin. discriminate Hin.
  - destruct pods.2; simpl; [by split_and!|].
    split_and!; [done|done|]. intros _. split; [done|]. intros _.
    destruct (strings.TrimSpace pods.1); simpl; split; done.
Qed.

Lemma stack_installed_cases_witness :
  (k8s.IsAgentStackInstalled ("/usr/bin/kubectl", None) ("", None)
     ("agent-0 Running", None)).2.2 = None.
Proof.
  exact (proj1 (stack_installed_cases ("/usr/bin/kubectl", None) ("", None)
                  ("agent-0 Running", None) eq_refl eq_refl)).
Defined.

(** X11: [DetectProvider] returns one of the five providers; it returns
    an error exactly when kubectl is missing or the context query fails,
    and then the provider is "unknown"; a context name that contains
    "orbstack" decides alone, without asking for the cluster info. *)
Theorem detect_provider_cases (look context info : string * error) :
  let out := k8s.DetectProvider look context info in
  out.2.1 ∈ [k8s.ProviderUnknown; k8s.ProviderOrbstack; k8s.ProviderMinikube;
             k8s.ProviderKind; k8s.ProviderDockerDsk]
  ∧ (out.2.2 = None ↔ look.2 = None ∧ context.2 = None)
  ∧ (out.2.2 ≠ None → out.2.1 = k8s.ProviderUnknown)
  ∧ (look.2 = None → context.2 = None →
     strings.Contains (strings.TrimSpace context.1) "orbstack" = true →
     out = ([Exec [look.1; "config"; "current-context"]], (k8s.ProviderOrbstack, None))).
Proof.
  unfold k8s.DetectProvider.
  destruct look.2; simpl.
  { split_and!; [apply list_elem_of_here|split; [done|by intros []]|done|done]. }
  destruct context.2; simpl.
  { split_and!; [apply list_elem_of_here|split; [done|by intros []]|done|done]. }
  repeat match goal with
         | |- context [if ?b then _ else _] => destruct b eqn:?
         | |- context [match info.2 with _ => _ end] => destruct info.2
         end; simpl;
    (split_and!; [by apply (bool_decide_unpack _) | done | done
                 | done || (intros; congruence)]).
Qed.

(** X12: [VerifyClusterConnection] returns no error exactly when kubectl
    is found, both commands succeed and the cluster info names the control
    plane or the master. *)
Theorem verify_connection_iff (look : string * error) (version : error)
    (info : string * error) :
  (k8s.VerifyClusterConnection look version info).2 = None ↔
  look.2 = None ∧ version = None ∧ info.2 = None
  ∧ (strings.Contains info.1 "Kubernetes control plane" = true
     ∨ strings.Contains info.1 "Kubernetes master" = true).
Proof.
  unfold k8s.VerifyClusterConnection.
  destruct look.2, version, info.2; simpl; try (split; [done|by intros (?&?&?&?)]).
  destruct (strings.Contains info.1 "Kubernetes control plane"),
           (strings.Contains info.1 "Kubernetes master"); simpl;
    (split; [by auto | try done]).
  by intros (_&_&_&[|]).
Qed.

(** ** [internal/utils] *)

Lemma length_append s t : String.length (s +:+ t) = String.length s + String.length t.
Proof. induction s as [|a s IH]; simpl; [done|]. by rewrite IH. Qed.

Lemma length_substring0 n s :
  String.length (String.substring 0 n s) = n `min` String.length s.
Proof.
  revert s. induction n as [|n IH]; intros [|a s]; simpl; try done.
  by rewrite IH.
Qed.

Lemma prefix_substring0 n s : String.prefix (String.substring 0 n s) s = true.
Proof.
  revert s. induction n as [|n IH]; intros [|a s]; simpl; try done.
  destruct (ascii_dec a a); [apply IH|done].
Qed.

(** X13: without a short name, [TruncateID] returns at most 11 bytes: the
    identifier itself when it has at most 8 bytes, and otherwise its first
    8 bytes followed by three dots. *)
Theorem truncate_id_bound id :
  let short := utils.TruncateID id "" false in
  String.length short ≤ 11
  ∧ (String.length id ≤ 8 → short = id)
  ∧ (8 < String.length id →
     ∃ head, String.length head = 8 ∧ String.prefix head id = true
             ∧ short = head +:+ "...").
Proof.
  unfold utils.TruncateID. simpl.
  destruct (Nat.ltb_spec 8 (String.length id)) as [Hlt|Hle].
  - split_and!.
    + rewrite length_append, length_substring0.
      change (String.length "...") with 3. lia.
    + lia.
    + intros _. exists (String.substring 0 8 id). split_and!; [|apply prefix_substring0|done].
      rewrite length_substring0. lia.
  - split_and!; [lia|done|lia].
Qed.

Lemma Split_nonempty s c : 0 < length (strings.Split s c).
Proof.
  induction s as [|a s IH]; simpl; [lia|].
  destruct (Ascii.eqb a c); simpl; [lia|].
  destruct (strings.Split s c); simpl in *; lia.
Qed.

Lemma Split_append_sep a b c :
  strings.Split (a +:+ String c b) c = strings.Split a c ++ strings.Split b c.
Proof.
  induction a as [|x a IH]; simpl.
  - by rewrite Ascii.eqb_refl.
  - destruct (Ascii.eqb x c); [by rewrite IH|].
    rewrite IH. pose proof (Split_nonempty a c).
    destruct (strings.Split a c); [simpl in *; lia|done].
Qed.

Lemma Split_pieces s c : ∀ p, p ∈ strings.Split s c → strings.Split p c = [p].
Proof.
  induction s as [|a s IH]; simpl; intros p Hp.
  - by apply list_elem_of_singleton in Hp as ->.
  - destruct (Ascii.eqb a c) eqn:E.
    + apply elem_of_cons in Hp as [->|Hp]; [done|by apply IH].
    + pose proof (Split_nonempty s c).
      destruct (strings.Split s c) as [|q qs]; [simpl in *; lia|].
      apply elem_of_cons in Hp as [->|Hp].
      * simpl. rewrite E. rewrite (IH q) by apply list_elem_of_here. done.
      * apply IH. by apply list_elem_of_further.
Qed.

Lemma Split_Join ls c :
  ls ≠ [] → (∀ p, p ∈ ls → strings.Split p c = [p]) →
  strings.Split (Join ls (String c EmptyString)) c = ls.
Proof.
  induction ls as [|x ls IH]; [done|]. intros _ Hp.
  destruct ls as [|y ls].
  - simpl. apply Hp, list_elem_of_here.
  - change (Join (x :: y :: ls) (String c EmptyString))
      with (x +:+ String c (Join (y :: ls) (String c EmptyString))).
    rewrite Split_append_sep, IH; [|done|].
    + by rewrite (Hp x) by apply list_elem_of_here.
    + intros p Hin. by apply Hp, list_elem_of_further.
Qed.

(** X14: [TruncateOutput] panics exactly on a negative number of lines;
    it returns the output unchanged when it has no more lines than asked
    for; otherwise the first [maxLines] lines of the result are the first
    [maxLines] lines of the output. *)
Theorem truncate_output_lines output maxLines :
  let lines := strings.Split output LF in
  (utils.TruncateOutput output maxLines = None ↔ (maxLines < 0)%Z)
  ∧ ((Z.of_nat (length lines) ≤ maxLines)%Z →
     utils.TruncateOutput output maxLines = Some output)
  ∧ ((0 ≤ maxLines < Z.of_nat (length lines))%Z →
     ∃ t, utils.TruncateOutput output maxLines = Some t
          ∧ take (Z.to_nat maxLines) (strings.Split t LF)
            = take (Z.to_nat maxLines) lines).
Proof.
  intros lines. unfold utils.TruncateOutput. fold lines.
  pose proof (Split_nonempty output LF) as Hpos. fold lines in Hpos.
  destruct (Z.leb_spec (Z.of_nat (length lines)) maxLines) as [Hle|Hgt].
  { split_and!; [split; [done|lia]|done|lia]. }
  destruct (Z.ltb_spec maxLines 0) as [Hneg|Hnn].
  { split_and!; [done|lia|lia]. }
  split_and!; [split; [done|lia]|lia|]. intros _. eexists. split; [done|].
  destruct (Z.to_nat maxLines) as [|n] eqn:En; [done|].
  unfold newline. change (String LF EmptyString +:+ ?x) with (String LF x).
  rewrite Split_append_sep, Split_Join.
  - rewrite take_app_le by (rewrite length_take; lia).
    rewrite take_take. f_equal. lia.
  - destruct lines; [simpl in Hpos; lia|done].
  - intros p Hp%subseteq_take. by eapply Split_pieces.
Qed.

(** ** [internal/config] and the configure command *)

(** X15: [Load] returns a configuration or an error, never both and never
    neither; a missing file and an empty file give the default
    configuration without an error; a file that does not parse gives an
    error, not the defaults. *)
Theorem load_cases (path : string * error) dir (mkdir : error) file unmarshal :
  let out := (configfile.Load path dir mkdir file unmarshal).2 in
  (out.1 = None ↔ out.2 ≠ None)
  ∧ (path.2 = None → mkdir = None →
     (∀ e, file = configfile.FileNotExist e → out = (Some configfile.DefaultConfig, None))
     ∧ (file = configfile.FileData "" → out = (Some configfile.DefaultConfig, None))
     ∧ (∀ data e, file = configfile.FileData data → data ≠ "" →
                  (unmarshal data).2 = Some e → out.1 = None ∧ out.2 ≠ None)).
Proof.
  unfold configfile.Load.
  destruct path.2 as [e|]; simpl; [split; [done|congruence]|].
  destruct mkdir as [e|]; simpl; [split; [done|congruence]|].
  destruct file as [data|e|e]; simpl.
  - destruct data as [|a data]; simpl.
    + split; [done|]. intros _ _. split_and!; [done|done|]. intros ? ? [= <-] ?. done.
    + destruct (unmarshal (String a data)).2 as [e|] eqn:E; simpl.
      * split; [done|]. intros _ _. split_and!; [done|done|done].
      * split; [done|]. intros _ _. split_and!; [done|done|].
        intros ? ? [= <-] _ ?. congruence.
  - split; [done|]. intros _ _. split_and!; done.
  - split; [done|]. intros _ _. split_and!; done.
Qed.

Lemma configure_events c cfg (line password : string * error) (save : error) :
  ∀ cfg', SaveConfig cfg' ∈ stack.events (cmd.Run c (Some cfg, None) line password save) →
    line.2 = None ∧ password.2 = None
    ∧ cfg' = cmd.with_Buildkite cfg
               (if negb (String.eqb password.1 "") then password.1
                else Token (Buildkite cfg))
               (if negb (String.eqb (strings.TrimSpace line.1) "")
                then strings.TrimSpace line.1 else bkOrgSlug (Buildkite cfg))
    ∧ (strings.TrimSpace line.1 ≠ "" ∨ bkOrgSlug (Buildkite cfg) ≠ "")
    ∧ (password.1 ≠ "" ∨ Token (Buildkite cfg) ≠ "").
Proof.
  intros cfg'. unfold cmd.Run, configfile.PromptForInput, configfile.PromptForPassword.
  unfold mbind, stack.M_bind. simpl.
  destruct line.2 as [e|]; simpl.
  { intros H. repeat (apply elem_of_cons in H as [H|H]; [done|]). by apply elem_of_nil in H. }
  destruct (String.eqb_spec (strings.TrimSpace line.1) "") as [Hl|Hl];
    destruct (String.eqb_spec (bkOrgSlug (Buildkite cfg)) "") as [Ho|Ho]; simpl;
    try (intros H; repeat (apply elem_of_cons in H as [H|H]; [done|]);
         by apply elem_of_nil in H);
    (destruct password.2 as [e|]; simpl;
     [intros H; repeat (apply elem_of_cons in H as [H|H]; [done|]);
      by apply elem_of_nil in H|]);
    destruct (String.eqb_spec password.1 "") as [Hp|Hp];
    destruct (String.eqb_spec (Token (Buildkite cfg)) "") as [Ht|Ht]; simpl;
    try (intros H; repeat (apply elem_of_cons in H as [H|H]; [done|]);
         by apply elem_of_nil in H);
    destruct save; simpl;
    (intros H; repeat (apply elem_of_cons in H as [H|H]; [try done|]);
     [injection H as ->; split_and!; (done || tauto)
     |try (by apply elem_of_nil in H)]).
Qed.

(** X16: whatever [ConfigureCmd.Run] saves has an organisation slug and a
    token that are not empty, each the answer when one was given and the
    loaded value otherwise, and the recent clusters and the Kubernetes
    settings that were loaded. *)
Theorem configure_saves_complete c cfg (line password : string * error) (save : error) :
  ∀ cfg', SaveConfig cfg' ∈ stack.events (cmd.Run c (Some cfg, None) line password save) →
    bkOrgSlug (Buildkite cfg') ≠ "" ∧ Token (Buildkite cfg') ≠ ""
    ∧ (bkOrgSlug (Buildkite cfg') = strings.TrimSpace line.1
       ∨ strings.TrimSpace line.1 = ""
         ∧ bkOrgSlug (Buildkite cfg') = bkOrgSlug (Buildkite cfg))
    ∧ (Token (Buildkite cfg') = password.1
       ∨ password.1 = "" ∧ Token (Buildkite cfg') = Token (Buildkite cfg))
    ∧ RecentClusters cfg' = RecentClusters cfg
    ∧ Kubernetes cfg' = Kubernetes cfg.
Proof.
  intros cfg' (_ & _ & -> & Ho & Ht)%configure_events. simpl.
  destruct (String.eqb_spec (strings.TrimSpace line.1) "") as [El|El];
    destruct (String.eqb_spec password.1 "") as [Ep|Ep]; simpl;
    split_and!; auto; tauto.
Qed.

Lemma configure_saves_complete_witness :
  let cfg := cfg_of [rec "A" "alpha" "tok-a" "s"] in
  RecentClusters (cmd.with_Buildkite cfg "bkua_x" "other") = RecentClusters cfg.
Proof.
  intros cfg.
  refine (proj1 (proj2 (proj2 (proj2 (proj2
            (configure_saves_complete {| cmd.Force := false |} cfg
               (" other ", None) ("", None) None
               (cmd.with_Buildkite cfg "bkua_x" "other") _)))))).
  by apply (bool_decide_unpack _).
Defined.

(** X17: [ConfigureCmd.Run] returns [nil] exactly when the configuration
    was loaded, both answers were read, each value is given or was already
    there, and the save succeeded; in particular never without saving. *)
Theorem configure_success_iff c (load : option Config * error)
    (line password : string * error) (save : error) :
  stack.returned (cmd.Run c load line password save) = Some None ↔
  ∃ cfg, load = (Some cfg, None) ∧ line.2 = None ∧ password.2 = None ∧ save = None
         ∧ (strings.TrimSpace line.1 ≠ "" ∨ bkOrgSlug (Buildkite cfg) ≠ "")
         ∧ (password.1 ≠ "" ∨ Token (Buildkite cfg) ≠ "").
Proof.
  unfold cmd.Run, configfile.PromptForInput, configfile.PromptForPassword.
  unfold stack.returned, mbind, stack.M_bind. simpl.
  destruct load as [[cfg|] [e|]]; simpl;
    try (split; [done|by intros (? & [=] & _)]).
  destruct line.2 as [e|]; simpl;
    [split; [done|by intros (? & _ & ? & _)]|].
  destruct (String.eqb_spec (strings.TrimSpace line.1) "") as [Hl|Hl];
    destruct (String.eqb_spec (bkOrgSlug (Buildkite cfg)) "") as [Ho|Ho]; simpl;
    try (split; [done|intros (? & [= <-] & _ & _ & _ & [|] & _); done]);
    (destruct password.2 as [e|]; simpl;
     [split; [done|by intros (? & _ & _ & ? & _)]|]);
    destruct (String.eqb_spec password.1 "") as [Hp|Hp];
    destruct (String.eqb_spec (Token (Buildkite cfg)) "") as [Ht|Ht]; simpl;
    try (split; [done|intros (? & [= <-] & _ & _ & _ & _ & [|]); done]);
    (destruct save; simpl;
     [split; [done|by intros (? & _ & _ & _ & ? & _)]
     |split; [intros _; exists cfg; split_and!; auto|done]]).
Qed.

(** A run of the configure command on what [Load] returned never
    dereferences a nil configuration. *)
Lemma configure_after_load c (path : string * error) dir (mkdir : error) file unmarshal
    (line password : string * error) (save : error) :
  stack.result
    (cmd.Run c (configfile.Load path dir mkdir file unmarshal).2 line password save)
  ≠ stack.Panic.
Proof.
  pose proof (load_cases path dir mkdir file unmarshal) as [Hx _]. simpl in Hx.
  destruct (configfile.Load path dir mkdir file unmarshal).2 as [[cfg|] [e|]];
    simpl in *;
    unfold cmd.Run, configfile.PromptForInput, configfile.PromptForPassword,
      mbind, stack.M_bind; simpl; try done.
  - destruct line.2; simpl; [done|].
    destruct (_ || _); simpl; [|done].
    destruct password.2; simpl; [done|].
    destruct (_ || _); simpl; [|done].
    by destruct save.
  - by destruct (proj1 Hx eq_refl).
Qed.

(** ** The cluster menu of the create command *)

Lemma recentMap_true recentClusters id :
  create.recentMap recentClusters id = true ↔ id ∈ UUID <$> recentClusters.
Proof.
  unfold create.recentMap. rewrite existsb_exists, list_elem_of_fmap. split.
  - intros (r & Hr%list_elem_of_In & Hq%String.eqb_eq). eauto.
  - intros (r & -> & Hr%list_elem_of_In). exists r. by rewrite String.eqb_refl.
Qed.

Lemma recent_originals_elem clusters recentClusters x :
  x ∈ recent_originals clusters recentClusters →
  x ∈ clusters ∧ ID x ∈ UUID <$> recentClusters.
Proof.
  unfold recent_originals. rewrite list_elem_of_In, in_flat_map.
  intros (r & Hr%list_elem_of_In & Hx).
  destruct (List.find _ clusters) as [y|] eqn:E; [|done].
  destruct Hx as [->|[]]. apply find_some in E as [Hy%list_elem_of_In ->%String.eqb_eq].
  split; [done|]. by apply list_elem_of_fmap_2.
Qed.

Lemma selectable_originals clusters recentClusters :
  "" ∉ ID <$> clusters →
  create.Original <$> create.selectableOptions clusters recentClusters
  = recent_originals clusters recentClusters ++ other_originals clusters recentClusters.
Proof.
  intros Hne. unfold create.selectableOptions, create.clusterOptions.
  rewrite !List.filter_app, !fmap_app.
  assert (Hsep : create.Original <$>
                   List.filter (λ opt, negb (String.eqb (create.optUUID opt) ""))
                     (if (0 <? length recentClusters)%nat then [create.separator] else [])
                 = []) by by destruct (0 <? length recentClusters)%nat.
  rewrite Hsep. simpl. f_equal.
  - clear Hsep. unfold recent_originals. induction recentClusters as [|r rs IH]; [done|].
    simpl. rewrite List.filter_app, fmap_app, IH. f_equal.
    destruct (List.find _ clusters) as [y|] eqn:E; [|done]. simpl.
    apply find_some in E as [Hy%list_elem_of_In _].
    destruct (String.eqb_spec (ID y) ""); [|done].
    destruct Hne. rewrite <- e. by apply list_elem_of_fmap_2.
  - clear Hsep. unfold other_originals. induction clusters as [|cl cls IH]; [done|].
    simpl. rewrite List.filter_app, fmap_app, IH.
    2:{ intros H. apply Hne. rewrite fmap_cons. by apply list_elem_of_further. }
    destruct (create.recentMap recentClusters (ID cl)); simpl; [done|].
    destruct (String.eqb_spec (ID cl) ""); [|done].
    destruct Hne. rewrite fmap_cons, <- e. apply list_elem_of_here.
Qed.

Lemma recent_originals_NoDup clusters recentClusters :
  NoDup (UUID <$> recentClusters) → NoDup (recent_originals clusters recentClusters).
Proof.
  unfold recent_originals. induction recentClusters as [|r rs IH]; simpl.
  - constructor.
  - intros [Hr Hrs]%NoDup_cons. apply NoDup_app. split_and!; [| |by apply IH].
    + destruct (List.find _ clusters); [apply NoDup_singleton|constructor].
    + intros x Hx Hx'. apply recent_originals_elem in Hx' as [_ Hin].
      destruct (List.find _ clusters) as [y|] eqn:E; [|by apply elem_of_nil in Hx].
      apply list_elem_of_singleton in Hx as ->.
      apply find_some in E as [_ Hy%String.eqb_eq]. apply Hr. by rewrite <- Hy.
Qed.

(** X18: when the registry's clusters have distinct, non-empty IDs and
    the cache has distinct uuids, the selectable options of the create
    command offer every cluster exactly once, the recent ones first; the
    separator is never among them. *)
Theorem menu_offers_each_cluster_once clusters recentClusters :
  NoDup (ID <$> clusters) →
  NoDup (UUID <$> recentClusters) →
  "" ∉ ID <$> clusters →
  let options := create.selectableOptions clusters recentClusters in
  create.Original <$> options ≡ₚ clusters
  ∧ (create.separator ∉ options)
  ∧ ∃ recent others,
      options = recent ++ others
      ∧ Forall (λ opt, create.IsRecent opt = true) recent
      ∧ Forall (λ opt, create.IsRecent opt = false) others.
Proof.
  intros Hc Hr Hne options. split_and!.
  - subst options. rewrite selectable_originals by done.
    apply NoDup_Permutation.
    + apply NoDup_app. split_and!.
      * by apply recent_originals_NoDup.
      * intros x [_ Hx]%recent_originals_elem Hx'.
        unfold other_originals in Hx'. apply list_elem_of_In, filter_In in Hx' as [_ Hf].
        apply recentMap_true in Hx. by rewrite Hx in Hf.
      * eapply sublist_NoDup; [by eapply NoDup_fmap_1|apply filter_sublist].
    + by eapply NoDup_fmap_1.
    + intros x. rewrite elem_of_app. split.
      * intros [[Hx _]%recent_originals_elem|Hx]; [done|].
        unfold other_originals in Hx. by apply list_elem_of_In, filter_In in Hx as [?%list_elem_of_In _].
      * intros Hx. destruct (create.recentMap recentClusters (ID x)) eqn:E.
        -- left. apply recentMap_true, list_elem_of_fmap in E as (r & Hxr & Hr').
           unfold recent_originals. apply list_elem_of_In, in_flat_map.
           exists r. split; [by apply list_elem_of_In|].
           destruct (List.find _ clusters) as [y|] eqn:Ef.
           ++ left. apply find_some in Ef as [Hy%list_elem_of_In Hyid%String.eqb_eq].
              apply list_elem_of_lookup in Hy as [i Hi], Hx as [j Hj].
              assert (i = j) as ->.
              { eapply NoDup_lookup; [exact Hc| |];
                  rewrite list_lookup_fmap; [by rewrite Hi|rewrite Hj]. simpl. congruence. }
              congruence.
           ++ eapply find_none in Ef; [|by apply list_elem_of_In].
              apply String.eqb_neq in Ef. congruence.
        -- right. unfold other_originals. apply list_elem_of_In, filter_In.
           split; [by apply list_elem_of_In|by rewrite E].
  - subst options. unfold create.selectableOptions.
    intros Hin%list_elem_of_In%filter_In. by destruct Hin as [_ ?].
  - subst options. unfold create.selectableOptions, create.clusterOptions.
    rewrite !List.filter_app. eexists _, _. split; [done|]. split.
    + apply Forall_forall. intros opt [Hopt _]%list_elem_of_In%filter_In.
      apply in_flat_map in Hopt as (r & _ & Hx). destruct (List.find _ clusters); [|done].
      by destruct Hx as [<-|[]].
    + apply Forall_app. split; apply Forall_forall.
      * intros opt [Hopt _]%list_elem_of_In%filter_In.
        destruct (0 <? length recentClusters)%nat; [|done]. by destruct Hopt as [<-|[]].
      * intros opt [Hopt _]%list_elem_of_In%filter_In.
        apply in_flat_map in Hopt as (cl & _ & Hx).
        destruct (create.recentMap recentClusters (ID cl)); [done|].
        by destruct Hx as [<-|[]].
Qed.

Lemma menu_offers_each_cluster_once_witness :
  let clusters := [cluster_of "A" "alpha"; cluster_of "B" "beta"; cluster_of "C" "gamma"] in
  let recentClusters := [rec "C" "gamma" "" ""; rec "Z" "gone" "" ""] in
  create.Original <$> create.selectableOptions clusters recentClusters ≡ₚ clusters.
Proof.
  intros clusters recentClusters.
  refine (proj1 (menu_offers_each_cluster_once clusters recentClusters _ _ _));
    by apply (bool_decide_unpack _).
Defined.

(** ** More on [stack delete] *)
Section DeleteMore.
Import stack.

Lemma resolve_safe env c helmPath stackList :
  Forall (λ e, destructive e = false) (events (resolve env c helmPath stackList))
  ∧ ∀ c', result (resolve env c helmPath stackList) = Cont c' → Force c' = Force c.
Proof.
  unfold resolve, helm_list_table, mbind, M_bind. simpl. cases;
    (split; [repeat constructor|intros c'; try done; by intros [= <-]]).
Qed.

Lemma discover_safe env c :
  Forall (λ e, destructive e = false) (events (discover env c))
  ∧ ∀ c' helmPath, result (discover env c) = Cont (c', helmPath) → Force c' = Force c.
Proof.
  destruct (resolve_safe env c (lookHelm env).1 (release_names (helmList env).1))
    as [Hev Hres].
  unfold discover. split.
  - apply Forall_bind; [repeat constructor|intros _ _].
    apply Forall_bind.
    { eapply Forall_impl; [apply installed_check_reads|]. intros e He.
      by apply reads_harmless. }
    intros [stackInstalled [e|]] _; [constructor|].
    destruct (negb stackInstalled); [repeat constructor|].
    unfold list_stacks.
    destruct (lookHelm env).2.
    { destruct (is_empty (Name c) && negb (All c)); repeat constructor. }
    destruct (helmList env).2.
    { destruct (is_empty (Name c) && negb (All c)); repeat constructor. }
    destruct (_ && _); [|repeat constructor].
    destruct (length _ =? 0)%nat; [repeat constructor|].
    do 2 (apply Forall_bind; [repeat constructor|intros _ _]).
    apply Forall_bind; [done|]. intros; constructor.
  - intros c' hp ([] & _ & H)%bind_Cont_inv.
    apply bind_Cont_inv in H as ([stackInstalled [e|]] & _ & H); [done|].
    destruct (negb stackInstalled); [done|].
    revert H. unfold list_stacks.
    destruct (lookHelm env).2.
    { destruct (is_empty (Name c) && negb (All c)); [done|]. by intros [= <- _]. }
    destruct (helmList env).2.
    { destruct (is_empty (Name c) && negb (All c)); [done|]. by intros [= <- _]. }
    destruct (_ && _); [|done].
    destruct (length _ =? 0)%nat; [done|].
    intros ([] & _ & H)%bind_Cont_inv.
    apply bind_Cont_inv in H as ([] & _ & H).
    apply bind_Cont_inv in H as (c2 & Hc2 & H). injection H as <- _.
    by apply Hres.
Qed.

(** The settled command of a run that got past the confirmation has the
    force flag of the command given. *)
Lemma prepare_keeps_force env c c' helmPath kubectlPath client selected :
  result (prepare env c) = Cont (c', helmPath, kubectlPath, client, selected) →
  ∃ info hp, Force c' = Force c ∧ result (discover env c) = Cont (c', hp)
             ∧ result (confirm env c' info) = Cont ().
Proof.
  unfold prepare. intros ([c1 hp] & Hd & H)%bind_Cont_inv.
  apply bind_Cont_inv in H as ([client1 kp] & _ & H).
  apply bind_Cont_inv in H as ([sel info] & _ & H).
  apply bind_Cont_inv in H as ([] & Hconf & H).
  apply bind_Cont_inv in H as ([] & _ & H).
  apply bind_Cont_inv in H as ([] & _ & H).
  apply bind_Cont_inv in H as ([] & _ & H).
  injection H as <- _ _ _ _. exists info, hp. split_and!; [|done|done].
  by apply (proj2 (discover_safe env c) _ hp).
Qed.

Lemma connect_safe env : Forall (λ e, destructive e = false) (events (connect env)).
Proof. apply connect_Forall; [done|]. intros e He. by apply reads_harmless. Qed.

Lemma plan_safe env client c :
  Forall (λ e, destructive e = false) (events (plan env client c)).
Proof.
  unfold plan, clusterInfo, ListClusters, bk.ListClusters, lift, mbind, M_bind. simpl.
  cases; simplify_eq/=; repeat constructor.
Qed.

Lemma confirm_blocks env c info :
  Force c = false → confirmDelete env ≠ (true, None) →
  Forall (λ e, destructive e = false) (events (confirm env c info))
  ∧ ∀ a, result (confirm env c info) ≠ Cont a.
Proof.
  intros Hf Hno. unfold confirm, mbind, M_bind. rewrite Hf. simpl.
  destruct (confirmDelete env) as [[|] [e|]]; simpl; try done;
    (split; [repeat constructor|done]).
Qed.

(** X19: without the force flag, unless the deletion is confirmed, the
    run removes nothing: it executes no helm uninstall and no kubectl
    delete, asks the registry for no deletion and does not write the
    configuration. *)
Theorem nothing_removed_without_consent env c fuel :
  Force c = false →
  confirmDelete env ≠ (true, None) →
  Forall (λ e, destructive e = false) (events (Run env c fuel)).
Proof.
  intros Hf Hno. unfold Run. apply Forall_bind.
  - unfold prepare.
    destruct (discover_safe env c) as [Hd HF].
    apply Forall_bind; [done|]. intros [c' helmPath] Hc'.
    apply Forall_bind; [apply connect_safe|]. intros [client kubectlPath] _.
    apply Forall_bind; [apply plan_safe|]. intros [selected info] _.
    destruct (confirm_blocks env c' info) as [Hev Hres];
      [by rewrite (HF _ _ Hc')|done|].
    apply Forall_bind; [done|]. intros a Ha. by destruct (Hres a).
  - intros [[[[c' helmPath] kubectlPath] client] selected] Hp.
    apply prepare_keeps_force in Hp as (info & hp & HF & _ & Hconf).
    destruct (confirm_blocks env c' info) as [_ Hres]; [by rewrite HF|done|].
    by destruct (Hres ()).
Qed.

Lemma nothing_removed_without_consent_witness :
  let env := declining (env_of two_stacks [rec "A" "alpha" "tok-a" "s"] None (true, None)) in
  Forall (λ e, destructive e = false) (events (Run env (cmd_of "dev-agents" false false) 3)).
Proof.
  intros env. apply nothing_removed_without_consent; [reflexivity|discriminate].
Defined.

Lemma for_each_continues {A} (l : list A) (body : A → M unit) :
  (∀ x, result (body x) = Cont ()) → result (for_each l body) = Cont ().
Proof.
  intros Hb. induction l as [|x l IH]; simpl; [done|].
  unfold mbind, M_bind. by rewrite Hb.
Qed.

Lemma resolve_quiet env c helmPath stackList :
  Force c = true →
  Forall (λ e, is_prompt e = false) (events (resolve env c helmPath stackList)).
Proof.
  intros Hf. unfold resolve, helm_list_table, mbind, M_bind. rewrite Hf. simpl.
  cases; repeat constructor.
Qed.

Lemma discover_quiet env c :
  Force c = true → Forall (λ e, is_prompt e = false) (events (discover env c)).
Proof.
  intros Hf. unfold discover.
  apply Forall_bind; [repeat constructor|intros _ _].
  apply Forall_bind.
  { eapply Forall_impl; [apply installed_check_reads|]. intros e He.
    by apply reads_harmless. }
  intros [stackInstalled [e|]] _; [constructor|].
  destruct (negb stackInstalled); [repeat constructor|].
  unfold list_stacks.
  destruct (lookHelm env).2.
  { destruct (is_empty (Name c) && negb (All c)); repeat constructor. }
  destruct (helmList env).2.
  { destruct (is_empty (Name c) && negb (All c)); repeat constructor. }
  destruct (_ && _); [|repeat constructor].
  destruct (length _ =? 0)%nat; [repeat constructor|].
  do 2 (apply Forall_bind; [repeat constructor|intros _ _]).
  apply Forall_bind; [by apply resolve_quiet|]. intros; constructor.
Qed.

Lemma connect_quiet env : Forall (λ e, is_prompt e = false) (events (connect env)).
Proof. apply connect_Forall; [done|]. intros e He. by apply reads_harmless. Qed.

Lemma plan_quiet env client c :
  Forall (λ e, is_prompt e = false) (events (plan env client c)).
Proof.
  unfold plan, clusterInfo, ListClusters, bk.ListClusters, lift, mbind, M_bind. simpl.
  cases; simplify_eq/=; repeat constructor.
Qed.

Lemma uninstall_quiet env c helmPath :
  Forall (λ e, is_prompt e = false) (events (uninstall env c helmPath)).
Proof.
  assert (Hone : ∀ name single,
             Forall (λ e, is_prompt e = false)
               (events (helm_uninstall env helmPath name single))).
  { intros. unfold helm_uninstall, mbind, M_bind. simpl. cases; repeat constructor. }
  unfold uninstall.
  destruct (negb (is_empty helmPath)); [|constructor].
  destruct (All c); [|apply Hone].
  do 2 (apply Forall_bind; [repeat constructor|intros _ _]).
  destruct (helmListAll env).2; [repeat constructor|].
  destruct (_ =? _)%nat; [repeat constructor|].
  by apply for_each_Forall.
Qed.

Lemma delete_ssh_secrets_quiet env kubectlPath :
  Forall (λ e, is_prompt e = false) (events (delete_ssh_secrets env kubectlPath)).
Proof.
  unfold delete_ssh_secrets.
  do 2 (apply Forall_bind; [repeat constructor|intros _ _]).
  destruct (getSecrets env).2; [constructor|].
  destruct (0 <? _)%nat; [|repeat constructor].
  apply Forall_bind; [repeat constructor|intros _ _].
  apply for_each_Forall. intros secret. unfold mbind, M_bind. simpl.
  cases; repeat constructor.
Qed.

Lemma delete_resources_quiet env c kubectlPath :
  Forall (λ e, is_prompt e = false) (events (delete_resources env c kubectlPath)).
Proof.
  unfold delete_resources.
  apply Forall_bind; [repeat constructor|intros _ _].
  apply for_each_Forall. intros resType. unfold mbind, M_bind. simpl.
  cases; repeat constructor.
Qed.

Lemma wait_loop_quiet env c kubectlPath timeoutDuration fuel :
  ∀ k, Forall (λ e, is_prompt e = false)
         (events (wait_loop env c kubectlPath timeoutDuration fuel k)).
Proof.
  induction fuel as [|fuel IH]; intros k; simpl; [constructor|].
  destruct (_ <? _)%Z; [repeat constructor|].
  apply Forall_bind; [repeat constructor|intros _ _].
  destruct (getPods env k).2; [repeat constructor|].
  destruct (_ =? _)%nat; [repeat constructor|].
  destruct (_ =? _)%nat; [repeat constructor|].
  apply Forall_bind; [repeat constructor|intros _ _]. apply IH.
Qed.

Lemma await_termination_quiet env c kubectlPath fuel :
  Forall (λ e, is_prompt e = false) (events (await_termination env c kubectlPath fuel)).
Proof.
  unfold await_termination. destruct (negb (NoWait c)); [|repeat constructor].
  apply Forall_bind; [repeat constructor|intros _ _]. apply wait_loop_quiet.
Qed.

Lemma reconcile_namespace_quiet env c helmPath kubectlPath :
  Force c = true →
  Forall (λ e, is_prompt e = false)
    (events (reconcile_namespace env c helmPath kubectlPath)).
Proof.
  intros Hf. unfold reconcile_namespace, mbind, M_bind. rewrite Hf. simpl.
  cases; repeat constructor.
Qed.

Lemma RevokeToken_quiet env cl cluster :
  Forall (λ e, is_prompt e = false) (events (RevokeToken env cl cluster)).
Proof.
  unfold RevokeToken.
  apply Forall_bind; [repeat constructor|intros _ _].
  apply Forall_bind.
  { unfold lift, DeleteToken, bk.DeleteToken. simpl. cases; repeat constructor. }
  intros [e|] _.
  - apply Forall_bind; [repeat constructor|intros; constructor].
  - apply Forall_bind; [repeat constructor|intros _ _].
    destruct (RemoveTokenFromCluster _ _ _ _) as [[ev cl'] err'] eqn:E.
    apply Forall_bind.
    { unfold lift. simpl. unfold RemoveTokenFromCluster in E.
      revert E. cases; intros [= <- _ _]; repeat constructor. }
    intros _ _. apply Forall_bind; [|intros; constructor].
    destruct err'; repeat constructor.
Qed.

Lemma revoke_all_quiet env clusters :
  ∀ cl k, Forall (λ e, is_prompt e = false) (events (revoke_all env cl clusters k)).
Proof.
  induction clusters as [|cluster rest IH]; intros cl k; simpl; [constructor|].
  destruct (has_token cluster); [|apply IH].
  apply Forall_bind; [apply RevokeToken_quiet|]. intros [cl' err] _. apply IH.
Qed.

Lemma revoke_tokens_quiet env client selected :
  Forall (λ e, is_prompt e = false) (events (revoke_tokens env client selected)).
Proof.
  unfold revoke_tokens. destruct client as [cl|]; [|constructor].
  destruct (0 <? _)%nat; [|repeat constructor].
  apply Forall_bind; [repeat constructor|intros _ _].
  apply Forall_bind; [apply revoke_all_quiet|]. intros [cl' n] _. constructor.
Qed.

Lemma report_quiet c n : Forall (λ e, is_prompt e = false) (events (report c n)).
Proof.
  unfold report, mbind, M_bind. simpl. cases; repeat constructor.
Qed.

(** X20: under the force flag the run never waits for the user: it asks
    for no selection and for no confirmation, whatever the outside
    answers. *)
Theorem force_never_prompts env c fuel :
  Force c = true →
  Forall (λ e, is_prompt e = false) (events (Run env c fuel)).
Proof.
  intros Hf. unfold Run, prepare, finish.
  destruct (discover_safe env c) as [_ HF].
  apply Forall_bind.
  - apply Forall_bind; [by apply discover_quiet|]. intros [c' helmPath] Hc'.
    assert (Hf' : Force c' = true) by by rewrite (HF _ _ Hc').
    apply Forall_bind; [apply connect_quiet|]. intros [client kubectlPath] _.
    apply Forall_bind; [apply plan_quiet|]. intros [selected info] _.
    apply Forall_bind.
    { unfold confirm. rewrite Hf'. constructor. }
    intros _ _. apply Forall_bind; [apply uninstall_quiet|]. intros _ _.
    apply Forall_bind; [apply delete_ssh_secrets_quiet|]. intros _ _.
    apply Forall_bind; [apply delete_resources_quiet|]. intros _ _. constructor.
  - intros [[[[c' helmPath] kubectlPath] client] selected] Hp.
    assert (Hf' : Force c' = true).
    { apply prepare_keeps_force in Hp as (info & hp & HF' & _). by rewrite HF'. }
    apply Forall_bind; [apply await_termination_quiet|]. intros _ _.
    apply Forall_bind; [by apply reconcile_namespace_quiet|]. intros _ _.
    apply Forall_bind; [apply revoke_tokens_quiet|]. intros [client' n] _.
    apply Forall_bind; [apply report_quiet|]. intros; constructor.
Qed.

Lemma force_never_prompts_witness :
  let env := env_of two_stacks [rec "A" "alpha" "tok-a" "s"] None (true, None) in
  Forall (λ e, is_prompt e = false) (events (Run env (cmd_of "" true true) 3)).
Proof. intros env. by apply force_never_prompts. Defined.

(** X21: no failure of helm or kubectl in the removal of releases,
    secrets and resources, and no failure at the registry, ends the run:
    each of these stages always goes on to the next. *)
Theorem cleanup_never_aborts env c helmPath kubectlPath client selected :
  result (uninstall env c helmPath) = Cont ()
  ∧ result (delete_ssh_secrets env kubectlPath) = Cont ()
  ∧ result (delete_resources env c kubectlPath) = Cont ()
  ∧ ∃ x, result (revoke_tokens env client selected) = Cont x.
Proof.
  assert (Hone : ∀ name single, result (helm_uninstall env helmPath name single) = Cont ()).
  { intros. unfold helm_uninstall.
    do 2 (erewrite result_bind by reflexivity).
    destruct (helmUninstall env name); [|done].
    erewrite result_bind by reflexivity. by destruct single. }
  split_and!.
  - unfold uninstall. destruct (negb (is_empty helmPath)); [|done].
    destruct (All c); [|apply Hone].
    do 2 (erewrite result_bind by reflexivity).
    destruct (helmListAll env).2; [by erewrite result_bind by reflexivity|].
    destruct (_ =? _)%nat; [done|].
    by apply for_each_continues.
  - unfold delete_ssh_secrets.
    do 2 (erewrite result_bind by reflexivity).
    destruct (getSecrets env).2; [done|].
    destruct (0 <? _)%nat; [|done].
    erewrite result_bind by reflexivity.
    apply for_each_continues. intros secret.
    erewrite result_bind by reflexivity. by destruct (deleteSecret env secret).
  - unfold delete_resources.
    erewrite result_bind by reflexivity.
    apply for_each_continues. intros resType.
    erewrite result_bind by reflexivity.
    destruct (0 <? _)%nat; [|done].
    erewrite result_bind by reflexivity. by destruct (deleteResources env resType).
  - apply revoke_tokens_continues.
Qed.

Lemma wait_loop_ends env c kubectlPath (T : Z) (N : nat) :
  (∀ k, N ≤ k → (T < elapsed env k)%Z) →
  ∀ fuel k, N < k + fuel → 0 < fuel →
    result (wait_loop env c kubectlPath T fuel k) = Cont ().
Proof.
  intros Hclock. induction fuel as [|fuel IH]; intros k Hk Hpos; [lia|]. simpl.
  destruct (Z.ltb_spec T (elapsed env k)) as [Hlt|Hge]; [done|].
  assert (k < N).
  { destruct (decide (N ≤ k)) as [Hle|]; [|lia]. specialize (Hclock k Hle). lia. }
  unfold mbind, M_bind. simpl.
  destruct (getPods env k).2; [done|].
  destruct (_ =? _)%nat; [done|].
  destruct (_ =? _)%nat; [done|]. simpl.
  apply IH; lia.
Qed.

(** X22: the wait for the pods ends. With the two-second ticker the time
    read at poll [k] is at least [2k] seconds; then a wait that is given
    more polls than half the timeout in seconds plus one always returns,
    pods or no pods. *)
Theorem wait_ends_with_ticking_clock env c kubectlPath fuel :
  (∀ k, (2 * Z.of_nat k * second ≤ elapsed env k)%Z) →
  Z.to_nat (wrap64 (Timeout c * second) / (2 * second)) + 1 < fuel →
  result (await_termination env c kubectlPath fuel) = Cont ().
Proof.
  intros Hclock Hfuel. unfold await_termination.
  destruct (negb (NoWait c)); [|done].
  unfold mbind, M_bind. simpl.
  apply (wait_loop_ends env c kubectlPath _
           (Z.to_nat (wrap64 (Timeout c * second) / (2 * second)) + 1)); [|lia|lia].
  intros k Hk. specialize (Hclock k).
  set (T := wrap64 (Timeout c * second)) in *.
  assert (Hs : (0 < 2 * second)%Z) by (unfold second; lia).
  pose proof (Z.mul_succ_div_gt T (2 * second) Hs) as Hdiv.
  destruct (Z.le_gt_cases 0 T) as [Hnn|Hneg].
  - assert (0 ≤ T / (2 * second))%Z by (apply Z.div_pos; lia).
    assert (Z.succ (T / (2 * second)) ≤ Z.of_nat k)%Z by lia.
    unfold second in *. nia.
  - unfold second in *. lia.
Qed.

Lemma wait_ends_with_ticking_clock_witness :
  let env := env_of two_stacks [] None (true, None) in
  result (await_termination env (cmd_of "dev-agents" false true) "/usr/bin/kubectl" 3)
  = Cont ().
Proof.
  intros env. apply wait_ends_with_ticking_clock.
  - intros k. simpl. lia.
  - vm_compute. lia.
Defined.

Lemma has_token_true r : has_token r = true ↔ TokenID r ≠ "".
Proof. unfold has_token. rewrite negb_true_iff. apply is_empty_false. Qed.

Lemma filter_has_token_nil (l : list RecentCluster) :
  List.filter has_token l = [] ↔ ∀ r, r ∈ l → TokenID r = "".
Proof.
  induction l as [|x l IH]; simpl.
  - split; [by intros _ r ?%elem_of_nil|done].
  - destruct (has_token x) eqn:E.
    + split; [done|]. intros H. apply has_token_true in E. destruct E.
      apply H, list_elem_of_here.
    + rewrite IH. split.
      * intros H r [->|Hr]%elem_of_cons; [|by apply H].
        destruct (String.eqb_spec (TokenID x) "") as [|Hne]; [done|].
        apply has_token_true in Hne. congruence.
      * intros H r Hr. by apply H, list_elem_of_further.
Qed.

Lemma filter_has_token_elem (l : list RecentCluster) r :
  r ∈ List.filter has_token l ↔ r ∈ l ∧ TokenID r ≠ "".
Proof. by rewrite !list_elem_of_In, filter_In, has_token_true. Qed.

(** X23: every cluster selected for revocation is a record of the cache
    that holds a token; nothing is selected exactly when no record of the
    cache holds a token, also for a named stack that matches no record;
    with the "all" flag the selection is every record that holds a token,
    in cache order. *)
Theorem selected_clusters_hold_tokens cl c :
  let selected := clustersToDelete cl c in
  (∀ r, r ∈ selected → r ∈ GetRecentClusters cl ∧ TokenID r ≠ "")
  ∧ (selected = [] ↔ ∀ r, r ∈ GetRecentClusters cl → TokenID r = "")
  ∧ (All c = true → selected = List.filter has_token (GetRecentClusters cl)).
Proof.
  unfold clustersToDelete, FindClusterByName, GetRecentClusters.
  destruct (config cl) as [cfg|]; simpl.
  2:{ split_and!; [by intros r ?%elem_of_nil|split; [by intros _ r ?%elem_of_nil|done]|done]. }
  destruct (0 <? length (RecentClusters cfg))%nat eqn:Elen.
  2:{ destruct (RecentClusters cfg); [|done].
      split_and!; [by intros r ?%elem_of_nil|split; [by intros _ r ?%elem_of_nil|done]|done]. }
  destruct (All c) eqn:Ea.
  { split_and!; [intros r Hr; by apply filter_has_token_elem|apply filter_has_token_nil|done]. }
  rewrite andb_true_r.
  set (matched := List.filter (name_matches (strings.ToLower (Name c))) (RecentClusters cfg)).
  assert (Hm : ∀ r, r ∈ matched → r ∈ RecentClusters cfg).
  { intros r [Hr _]%list_elem_of_In%filter_In. by apply list_elem_of_In. }
  remember (if (0 <? length matched)%nat then List.filter has_token matched else [])
    as sel eqn:Esel.
  assert (Hsel : ∀ r, r ∈ sel → r ∈ RecentClusters cfg ∧ TokenID r ≠ "").
  { intros r Hr. subst sel. destruct (0 <? length matched)%nat; [|by apply elem_of_nil in Hr].
    apply filter_has_token_elem in Hr as [Hr Ht]. split; [by apply Hm|done]. }
  clear Esel. destruct sel as [|s0 sel']; simpl.
  - destruct (first_index has_token (RecentClusters cfg)) as [[i x]|] eqn:Ef.
    + apply first_index_Some in Ef as (Hi & Hx%has_token_true & _).
      split_and!; [|split; [done|]|done].
      * intros r ->%list_elem_of_singleton.
        split; [by eapply list_elem_of_lookup_2|done].
      * intros H. destruct Hx. eapply H, list_elem_of_lookup_2, Hi.
    + split_and!; [by intros r ?%elem_of_nil|split; [intros _|done]|done].
      pose proof (proj1 (first_index_None _ _) Ef) as Hnone. intros r Hr.
      destruct (String.eqb_spec (TokenID r) "") as [|Hne]; [done|].
      destruct (Hnone r Hr). by apply has_token_true.
  - split_and!; [done|split; [done|]|done].
    intros H. destruct (Hsel s0) as [Hin Ht]; [apply list_elem_of_here|].
    destruct Ht. by apply H.
Qed.

Lemma RevokeToken_step env cl k0 cfg cluster :
  client cl = Some k0 → config cl = Some cfg →
  ∃ cl' cfg' err,
    result (RevokeToken env cl cluster) = Cont (cl', err)
    ∧ client cl' = Some k0 ∧ config cl' = Some cfg'
    ∧ Buildkite cfg' = Buildkite cfg
    ∧ (err = None ↔ registryDelete env (UUID cluster) (TokenID cluster) = None)
    ∧ RegistryDeleteToken (bkOrgSlug (Buildkite cfg)) (UUID cluster) (TokenID cluster)
        ∈ events (RevokeToken env cl cluster).
Proof.
  intros Hk Hc. unfold RevokeToken, DeleteToken, bk.DeleteToken, lift, mbind, M_bind.
  rewrite Hk, Hc. simpl.
  destruct (registryDelete env (UUID cluster) (TokenID cluster)) as [e|]; simpl.
  - exists cl, cfg, (Some (wrap ("failed to delete token '" +:+ TokenID cluster
                                   +:+ "' for cluster '" +:+ UUID cluster +:+ "'") e)).
    split_and!; try done. apply list_elem_of_further, list_elem_of_here.
  - unfold RemoveTokenFromCluster. rewrite Hc.
    destruct (first_index _ _) as [[i r]|]; simpl.
    + destruct (saveConfig env (UUID cluster)); simpl; eexists _, _, None;
        (split_and!; try done; apply list_elem_of_further, list_elem_of_here).
    + eexists cl, cfg, None.
      split_and!; try done. apply list_elem_of_further, list_elem_of_here.
Qed.

Lemma revoke_all_cons env cl cluster rest n :
  revoke_all env cl (cluster :: rest) n
  = if has_token cluster
    then RevokeToken env cl cluster ≫= λ '(cl', err),
           revoke_all env cl' rest (if err is None then S n else n)
    else revoke_all env cl rest n.
Proof. done. Qed.

Lemma revoked_cons env cluster rest :
  revoked env (cluster :: rest)
  = if has_token cluster
       && bool_decide (registryDelete env (UUID cluster) (TokenID cluster) = None)
    then cluster :: revoked env rest else revoked env rest.
Proof. done. Qed.

(** X24: on an initialised client the token stage asks the registry to
    delete the token of every selected cluster that holds one, whether or
    not an earlier deletion failed, and the number it reports is the number
    of deletions the registry accepted. *)
Theorem revoke_all_counts env clusters :
  ∀ cl k0 cfg n0,
    client cl = Some k0 → config cl = Some cfg →
    (∃ cl', result (revoke_all env cl clusters n0)
            = Cont (cl', n0 + length (revoked env clusters)))
    ∧ ∀ r, r ∈ clusters → has_token r = true →
           RegistryDeleteToken (bkOrgSlug (Buildkite cfg)) (UUID r) (TokenID r)
             ∈ events (revoke_all env cl clusters n0).
Proof.
  induction clusters as [|cluster rest IH]; intros cl k0 cfg n0 Hk Hc.
  { simpl. split; [exists cl; f_equal; f_equal; lia|by intros r ?%elem_of_nil]. }
  rewrite revoke_all_cons, revoked_cons.
  destruct (has_token cluster) eqn:Et.
  - destruct (RevokeToken_step env cl k0 cfg cluster Hk Hc)
      as (cl' & cfg' & err & Hres & Hk' & Hc' & Hbk & Herr & Hev).
    destruct (IH cl' k0 cfg' (if err is None then S n0 else n0) Hk' Hc')
      as [[cl'' Hrest] Hevs].
    split.
    + exists cl''. rewrite (result_bind _ _ _ Hres). rewrite Hrest.
      f_equal. f_equal.
      destruct err as [e|];
        destruct (registryDelete env (UUID cluster) (TokenID cluster)) as [e'|];
        simpl.
      * done.
      * discriminate (proj2 Herr eq_refl).
      * discriminate (proj1 Herr eq_refl).
      * lia.
    + intros r Hin Ht. rewrite (bind_Cont _ _ _ Hres). cbn [events]. apply elem_of_app.
      apply elem_of_cons in Hin as [->|Hr]; [by left|].
      right. rewrite <- Hbk. by apply Hevs.
  - destruct (IH cl k0 cfg n0 Hk Hc) as [Hrest Hevs]. split; [done|].
    intros r [->|Hr]%elem_of_cons Ht; [congruence|by apply Hevs].
Qed.

Lemma revoke_all_counts_witness :
  let a := rec "A" "alpha" "tok-a" "s" in
  let env := env_of "[]" [a] None (true, None) in
  RegistryDeleteToken "acme" "A" "tok-a" ∈ events (revoke_all env (client_of [a]) [a] 0).
Proof.
  intros a env.
  apply (proj2 (revoke_all_counts env [a] (client_of [a]) sdk (cfg_of [a]) 0
                  eq_refl eq_refl) a); [apply list_elem_of_here|reflexivity].
Defined.

(** X25: the discovery reads at most one release name from a line of the
    listing, so a listing on one line never yields more than one stack. *)
Theorem one_release_per_line listOutput :
  length (release_names listOutput) ≤ length (strings.Split listOutput LF)
  ∧ (strings.Split listOutput LF = [listOutput] → length (release_names listOutput) ≤ 1).
Proof.
  assert (H : ∀ lines : list string,
             length (flat_map
                       (λ line,
                          if strings.Contains line (quote +:+ "name" +:+ quote +:+ ":")
                          then match strings.Split line DQ !! 3 with
                               | Some name => [name]
                               | None => []
                               end
                          else []) lines) ≤ length lines).
  { induction lines as [|line lines IH]; simpl; [lia|].
    rewrite length_app. destruct (strings.Contains _ _); simpl; [|lia].
    destruct (_ !! 3); simpl; lia. }
  unfold release_names. split; [apply H|].
  intros ->. apply (H [listOutput]).
Qed.

(** X26: with an empty name, no "all" flag and exactly one stack
    discovered, that stack becomes the target, with or without the force
    flag and without any selection. *)
Theorem single_stack_is_selected env c only :
  IsAgentStackInstalled env = (true, None) →
  (lookHelm env).2 = None →
  (helmList env).2 = None →
  Name c = "" → All c = false →
  discovered env = [only] →
  result (discover env c) = Cont (with_target c only false, (lookHelm env).1)
  ∧ Forall (λ e, is_prompt e = false) (events (discover env c)).
Proof.
  intros Hi Hh Hl Hn Ha Hd.
  rewrite (discover_listed env c Hi Hh Hl), Hd.
  unfold resolve. rewrite Hn, Ha. simpl. split; [done|].
  assert (Hq : Forall (λ e, is_prompt e = false) (installed_check env).1).
  { eapply Forall_impl; [apply installed_check_reads|]. intros e He.
    by apply reads_harmless. }
  repeat first [exact Hq | constructor | apply Forall_app; split].
Qed.

Lemma single_stack_is_selected_witness :
  let env := env_of ("[" +:+ listing_line "dev-agents" +:+ "]") [] None (true, None) in
  let c := cmd_of "" false false in
  result (discover env c) = Cont (with_target c "dev-agents" false, "/usr/bin/helm").
Proof.
  intros env c.
  exact (proj1 (single_stack_is_selected env c "dev-agents"
                  eq_refl eq_refl eq_refl eq_refl eq_refl eq_refl)).
Defined.

(** X27: when the check for an installed stack fails or finds none, the
    run goes no further than the check: it prints, executes the
    [kubectl get] commands of the check (none when kubectl is missing) and
    nothing else, so it asks nothing, calls no registry and removes
    nothing; it returns the error of the check, or [nil] when nothing is
    installed. *)
Theorem not_installed_stops_after_check env c fuel :
  (IsAgentStackInstalled env).2 ≠ None ∨ (IsAgentStackInstalled env).1 = false →
  let run := Run env c fuel in
  let check := k8s.IsAgentStackInstalled (lookKubectlInstalled env) (getNamespace env)
                 (getAgentPods env) in
  events run
  = Print "Deleting Buildkite agent stack from Kubernetes..."
    :: check.1
    ++ match check.2.2 with
       | Some _ => []
       | None => [Print "❌ No Buildkite agent stack is installed. Nothing to delete."]
       end
  ∧ Forall (λ e, (∃ line, e = Print line)
                 ∨ ∃ kubectlPath args, e = Exec (kubectlPath :: "get" :: args))
      (events run)
  ∧ ((lookKubectlInstalled env).2 ≠ None →
     Forall (λ e, ∃ line, e = Print line) (events run))
  ∧ returned run
    = Some (match check.2.2 with
            | Some e => Some (wrap "failed to check if agent stack is installed" e)
            | None => None
            end).
Proof.
  intros H run check.
  pose proof (discover_not_installed env c H) as Hd.
  subst run. erewrite Run_stops_in_discover by by rewrite Hd.
  rewrite Hd.
  change (installed_check env) with check.
  change (IsAgentStackInstalled env) with check.2.
  split_and!; [done| | |done]; cbn [events].
  - apply Forall_cons. split; [left; by eexists|].
    apply Forall_app. split.
    + subst check. unfold k8s.IsAgentStackInstalled, k8s.agent_pods.
      cases;
        repeat first [apply Forall_nil_2
                     |apply Forall_cons; split; [right; by eexists _, _|]].
    + destruct check.2.2; [apply Forall_nil_2|].
      apply Forall_cons. split; [left; by eexists|apply Forall_nil_2].
  - intros Hlook. apply Forall_cons. split; [by eexists|].
    apply Forall_app. split.
    + subst check. unfold k8s.IsAgentStackInstalled.
      destruct (lookKubectlInstalled env).2; [apply Forall_nil_2|done].
    + destruct check.2.2; [apply Forall_nil_2|].
      apply Forall_cons. split; [by eexists|apply Forall_nil_2].
Qed.

Lemma not_installed_stops_after_check_witness :
  let env := not_installed (env_of two_stacks [] None (true, None)) in
  let run := Run env (cmd_of "dev-agents" false true) 0 in
  events run
  = [Print "Deleting Buildkite agent stack from Kubernetes...";
     Exec ["/usr/bin/kubectl"; "get"; "namespace"; "buildkite"; "--no-headers";
           "--ignore-not-found"];
     Print "❌ No Buildkite agent stack is installed. Nothing to delete."]
  ∧ returned run = Some None.
Proof.
  intros env run.
  destruct (not_installed_stops_after_check env (cmd_of "dev-agents" false true) 0
              (or_intror eq_refl)) as (Hev & _ & _ & Hret).
  split; [exact Hev|exact Hret].
Defined.

Lemma wait_loop_pods_gone env c kubectlPath n :
  ∀ fuel k,
    (∀ j, k ≤ j < k + n → still_waiting env c j = true) →
    (elapsed env (k + n) ≤ wrap64 (Timeout c * second))%Z →
    pods_gone env (k + n) = true →
    n < fuel →
    ∃ evs, wait_loop env c kubectlPath (wrap64 (Timeout c * second)) fuel k
           = mkM (evs ++ [Print allTerminated]) (Cont ())
           ∧ length (List.filter (λ e, if e is Exec _ then true else false) evs) = S n.
Proof.
  induction n as [|n IH]; intros fuel k Hw Ht Hgone Hf;
    (destruct fuel as [|fuel]; [lia|]); simpl.
  - rewrite Nat.add_0_r in Ht, Hgone.
    destruct (Z.ltb_spec (wrap64 (Timeout c * second)) (elapsed env k)); [lia|].
    unfold mbind, M_bind. simpl. unfold pods_gone in Hgone.
    destruct (getPods env k).2 as [e|]; simpl; [by eexists [_]|].
    simpl in Hgone.
    destruct (String.length _ =? 0)%nat; simpl; [by eexists [_]|].
    rewrite Hgone. simpl. by eexists [_].
  - assert (Hk : still_waiting env c k = true) by (apply Hw; lia).
    unfold still_waiting in Hk.
    apply andb_true_iff in Hk as [[Hle Herr]%andb_true_iff Hpods].
    apply Z.leb_le in Hle. apply bool_decide_eq_true in Herr.
    apply negb_true_iff in Hpods.
    destruct (Z.ltb_spec (wrap64 (Timeout c * second)) (elapsed env k)); [lia|].
    rewrite Herr.
    destruct (String.length (strings.TrimSpace (getPods env k).1) =? 0)%nat eqn:El.
    { apply Nat.eqb_eq in El.
      destruct (strings.TrimSpace (getPods env k).1); [|done].
      by vm_compute in Hpods. }
    rewrite Hpods.
    destruct (IH fuel (S k)) as (evs & Hevs & Hlen).
    + intros j Hj. apply Hw. lia.
    + by replace (S k + n) with (k + S n) by lia.
    + by replace (S k + n) with (k + S n) by lia.
    + lia.
    + unfold mbind, M_bind. simpl. rewrite Hevs. simpl.
      eexists (_ :: _ :: evs). split; [done|]. simpl. by rewrite Hlen.
Qed.

(** X28: the wait ends at the first poll that finds no pod left, within
    the timeout: it then reports that the pods have terminated, having
    queried the pods once per poll and not once more. *)
Theorem wait_ends_when_pods_gone env c kubectlPath fuel n :
  NoWait c = false →
  (∀ j, j < n → still_waiting env c j = true) →
  (elapsed env n ≤ wrap64 (Timeout c * second))%Z →
  pods_gone env n = true →
  n < fuel →
  ∃ evs, await_termination env c kubectlPath fuel
         = mkM (evs ++ [Print allTerminated]) (Cont ())
         ∧ length (List.filter (λ e, if e is Exec _ then true else false) evs) = S n.
Proof.
  intros Hnw Hw Ht Hgone Hf. unfold await_termination. rewrite Hnw. simpl.
  destruct (wait_loop_pods_gone env c kubectlPath n fuel 0) as (evs & Hevs & Hlen);
    [intros j Hj; apply Hw; lia|done|done|done|].
  unfold mbind, M_bind. simpl. rewrite Hevs. simpl.
  by eexists (_ :: evs).
Qed.

Lemma wait_ends_when_pods_gone_witness :
  let env := pods_leave_at (env_of two_stacks [] None (true, None)) 1 in
  ∃ evs, await_termination env (cmd_of "dev-agents" false true) "/usr/bin/kubectl" 2
         = mkM (evs ++ [Print allTerminated]) (Cont ())
         ∧ length (List.filter (λ e, if e is Exec _ then true else false) evs) = 2.
Proof.
  intros env.
  apply (wait_ends_when_pods_gone env (cmd_of "dev-agents" false true) "/usr/bin/kubectl" 2 1);
    [reflexivity| |by vm_compute|reflexivity|lia].
  intros [|j] Hj; [reflexivity|lia].
Defined.

End DeleteMore.
